(** * Verification of [QC/run-spotiflow-qc.py]

    The script is command-line glue around the spotiflow library: it parses
    four options, discovers and pairs the ground-truth and prediction CSV
    files of two directories ([load_data]), hands the coordinate arrays to
    [points_matching_dataset], and optionally writes the metrics table.

    The development embeds the script as a program over the external calls
    it makes (directory globbing, the two CSV readers, the matching engine,
    [mkdir], [to_csv]).  The Python standard-library pieces the script
    relies on (the [str] methods, [pathlib] on POSIX, [argparse], all as of
    CPython 3.11) are written out as executable functions.  Strings are byte
    strings holding UTF-8: prefix tests, the search for an ASCII separator
    and the lexicographic order agree with Python's code-point semantics. *)

From Stdlib Require Import ZArith QArith Qreals Ascii String List Bool Lia Permutation
  Sorted Reals Lra.
From stdpp Require Import base tactics option list strings pretty gmap sorting.

Local Open Scope Z_scope.

(** ** Python [str] methods used by the script and by the libraries *)

Module str.

Definition len (s : string) : Z := Z.of_nat (String.length s).

(** [s.startswith(prefix)] *)
Fixpoint startswith (s prefix : string) : bool :=
  match prefix, s with
  | EmptyString, _ => true
  | String _ _, EmptyString => false
  | String a prefix', String b s' => Ascii.eqb a b && startswith s' prefix'
  end.

(** [s.endswith(suffix)] *)
Definition endswith (s suffix : string) : bool :=
  let n := String.length s in
  let m := String.length suffix in
  (m <=? n)%nat && String.eqb (String.substring (n - m) m s) suffix.

(** [s.split(sep)[0]] for a non-empty [sep]: the text before the first
    occurrence of [sep], the whole of [s] when [sep] does not occur. *)
Fixpoint split_0 (s sep : string) : string :=
  if startswith s sep then EmptyString
  else match s with
       | EmptyString => EmptyString
       | String c s' => String c (split_0 s' sep)
       end.

(** [s.split(sep, 1)] for a single-character [sep] that occurs in [s]:
    [None] when it does not occur. *)
Fixpoint split_1 (s : string) (sep : ascii) : option (string * string) :=
  match s with
  | EmptyString => None
  | String c s' =>
      if Ascii.eqb c sep then Some (EmptyString, s')
      else match split_1 s' sep with
           | Some (l, r) => Some (String c l, r)
           | None => None
           end
  end.

(** [sep in s] for a single character *)
Fixpoint contains (s : string) (c : ascii) : bool :=
  match s with
  | EmptyString => false
  | String a s' => Ascii.eqb a c || contains s' c
  end.

(** [s.split(sep)] for a single-character [sep] *)
Fixpoint split (s : string) (sep : ascii) : list string :=
  match s with
  | EmptyString => [EmptyString]
  | String c s' =>
      if Ascii.eqb c sep then EmptyString :: split s' sep
      else match split s' sep with
           | w :: ws => String c w :: ws
           | [] => [String c EmptyString]
           end
  end.

(** [s.lstrip(c)] *)
Fixpoint lstrip (s : string) (c : ascii) : string :=
  match s with
  | String a s' => if Ascii.eqb a c then lstrip s' c else s
  | EmptyString => EmptyString
  end.

(** [s.rfind(c)]: the highest index of [c], [-1] when absent. *)
Fixpoint rfind (s : string) (c : ascii) : Z :=
  match s with
  | EmptyString => -1
  | String a s' =>
      let i := rfind s' c in
      if 0 <=? i then i + 1
      else if Ascii.eqb a c then 0 else -1
  end.

(** [s[:i]] for [0 <= i] *)
Definition slice_to (s : string) (i : Z) : string :=
  String.substring 0 (Z.to_nat i) s.

(** [s[i:]] for [0 <= i] *)
Definition slice_from (s : string) (i : Z) : string :=
  String.substring (Z.to_nat i) (String.length s - Z.to_nat i) s.

Definition is_digit (c : ascii) : bool :=
  let n := N_of_ascii c in ((48 <=? n) && (n <=? 57))%N.

Fixpoint all_digits (s : string) : bool :=
  match s with
  | EmptyString => true
  | String c s' => is_digit c && all_digits s'
  end.

(** [fnmatch.translate(pat)] followed by [fullmatch], for patterns built
    from literal characters, [*] and [?] (no bracket expressions). *)
Fixpoint fnmatch (pat : string) : string -> bool :=
  match pat with
  | EmptyString => fun name => match name with EmptyString => true | _ => false end
  | String p pat' =>
      if Ascii.eqb p "*" then
        fix star (name : string) : bool :=
          fnmatch pat' name
          || match name with
             | EmptyString => false
             | String _ name' => star name'
             end
      else if Ascii.eqb p "?" then
        fun name => match name with
                    | EmptyString => false
                    | String _ name' => fnmatch pat' name'
                    end
      else
        fun name => match name with
                    | EmptyString => false
                    | String c name' => Ascii.eqb c p && fnmatch pat' name'
                    end
  end.

End str.

(** ** Lexicographic comparison of sequences, as Python compares [str] and [list] *)

Section Lex.
Context {A : Type} (cmp : A -> A -> comparison).

Fixpoint lex (l1 l2 : list A) : comparison :=
  match l1, l2 with
  | [], [] => Eq
  | [], _ :: _ => Lt
  | _ :: _, [] => Gt
  | x :: l1', y :: l2' =>
      match cmp x y with
      | Eq => lex l1' l2'
      | c => c
      end
  end.
End Lex.

(** ** [pathlib] paths, POSIX flavour *)

Module pathlib.

(** A path is its [parts]; an absolute path has the root (["/"], or ["//"]
    for exactly two leading slashes) as its first part. *)
Definition Path : Type := list string.

Definition has_root (p : Path) : bool :=
  match p with
  | r :: _ => String.eqb r "/" || String.eqb r "//"
  | [] => false
  end.

(** [_PosixFlavour.splitroot] *)
Definition splitroot (part : string) : string * string :=
  if str.startswith part "/" then
    let stripped := str.lstrip part "/" in
    if str.len part - str.len stripped =? 2 then ("//", stripped)
    else ("/", stripped)
  else (EmptyString, part).

(** [Path(s)]: [parse_parts] on one string *)
Definition of_str (s : string) : Path :=
  let '(root, rel) := splitroot s in
  let comps :=
    List.filter (fun x => negb (String.eqb x "") && negb (String.eqb x "."))
      (str.split rel "/") in
  if String.eqb root "" then comps else root :: comps.

(** [_make_child_relpath] *)
Definition child (p : Path) (name : string) : Path := p ++ [name].

(** [.name] *)
Definition name (p : Path) : string :=
  if (length p =? (if has_root p then 1 else 0))%nat then EmptyString
  else List.last p EmptyString.

(** [.parent] *)
Definition parent (p : Path) : Path :=
  if (length p =? 1)%nat && has_root p then p else List.removelast p.

(** [.stem] *)
Definition stem (p : Path) : string :=
  let name := name p in
  let i := str.rfind name "." in
  if (0 <? i) && (i <? str.len name - 1) then str.slice_to name i
  else name.

(** [__lt__]: the parts compared as Python lists of [str] *)
Definition compare (p q : Path) : comparison := lex String.compare p q.
Definition lt (p q : Path) : bool :=
  match compare p q with Lt => true | _ => false end.
Definition le (p q : Path) : Prop := lt q p = false.

#[global] Instance le_dec p q : Decision (le p q).
Proof. unfold le. apply _. Defined.

(** [sorted(paths)] *)
Definition sorted (ps : list Path) : list Path := merge_sort le ps.

End pathlib.


Import pathlib.

(** ** Values, exceptions and the conversions the script delegates to builtins *)

(** The values an [argparse] namespace attribute of this script can hold. *)
Inductive pyval : Type :=
| PyNone
| PyStr (s : string)
| PyPath (p : Path)
| PyFloat (x : Q)
| PyEmptyList.

Inductive oserror : Type :=
| FileNotFoundError
| FileExistsError
| NotADirectoryError
| IsADirectoryError.

Inductive Exn : Type :=
| SystemExit (code : Z)
| ValueError (msg : string)
| TypeError (msg : string)
| AttributeError (msg : string)
| OSError (e : oserror)
| ExternalError (name : string).

(** Computations that may raise: [inl e] is the exception [e] propagating. *)
#[global] Instance result_ret {E : Type} : MRet (sum E) := fun _ a => inr a.
#[global] Instance result_bind {E : Type} : MBind (sum E) := fun _ _ f m =>
  match m with inl e => inl e | inr a => f a end.
#[global] Instance result_fmap {E : Type} : FMap (sum E) := fun _ _ f m =>
  match m with inl e => inl e | inr a => inr (f a) end.

(** What the script leaves to the interpreter: [float(s)] ([None] stands for
    its [ValueError]) and argparse's regular expression
    ['^-\d+$|^-\d*\.\d+$'] for tokens that look like negative numbers. *)
Record Builtins : Type := {
  py_float : string -> option Q;
  negative_number_like : string -> bool
}.

(** ** [argparse]: option recognition and the parsing loop of [parse_args] *)

Module argparse.

Inductive argtype : Type := type_str | type_Path | type_float.

(** Actions: [store] with [nargs=None] (exactly one argument), or the
    help action the parser adds itself ([nargs=0]). *)
Inductive kind : Type :=
| store (type : argtype) (required : bool) (default : pyval)
| help.

Record Action : Type := {
  option_strings : list string;
  dest : string;
  action_kind : kind
}.

Abbreviation Namespace := (gmap string pyval).

Definition takes_argument (a : Action) : bool :=
  match action_kind a with store _ _ _ => true | help => false end.

Definition is_required (a : Action) : bool :=
  match action_kind a with store _ r _ => r | help => false end.

(** The error exit of [parser.error] and the exit of the help action. *)
Definition error : Exn := SystemExit 2.
Definition help_exit : Exn := SystemExit 0.

Section Parser.
Variable B : Builtins.
Variable actions : list Action.

(** [_option_string_actions], in insertion order *)
Definition option_string_actions : list (string * Action) :=
  List.flat_map (fun a => List.map (fun o => (o, a)) (option_strings a)) actions.

Definition lookup_option (o : string) : option Action :=
  snd <$> List.find (fun oa => String.eqb (fst oa) o) option_string_actions.

(** What [_parse_optional] returns: [None] (a positional), a tuple
    [(action, option_string, explicit_arg)], or the error exit for an
    ambiguous abbreviation. *)
Inductive optional : Type :=
| Positional
| OptionTuple (a : option Action) (option_string : string) (explicit_arg : option string)
| Ambiguous.

(** [_get_option_tuples], for a string of at least two characters that
    starts with ['-'] *)
Definition get_option_tuples (option_string : string)
  : list (Action * string * option string) :=
  if str.startswith option_string "--" then
    let '(option_prefix, explicit_arg) :=
      match str.split_1 option_string "=" with
      | Some (p, e) => (p, Some e)
      | None => (option_string, None)
      end in
    List.flat_map (fun '(o, a) =>
      if str.startswith o option_prefix then [(a, o, explicit_arg)] else [])
      option_string_actions
  else
    let option_prefix := option_string in
    let short_option_prefix := str.slice_to option_string 2 in
    let short_explicit_arg := str.slice_from option_string 2 in
    List.flat_map (fun '(o, a) =>
      if String.eqb o short_option_prefix then [(a, o, Some short_explicit_arg)]
      else if str.startswith o option_prefix then [(a, o, None)]
      else [])
      option_string_actions.

Definition parse_optional (arg_string : string) : optional :=
  if String.eqb arg_string "" then Positional
  else if negb (str.startswith arg_string "-") then Positional
  else match lookup_option arg_string with
  | Some a => OptionTuple (Some a) arg_string None
  | None =>
  if str.len arg_string =? 1 then Positional
  else
    let by_equals :=
      match str.split_1 arg_string "=" with
      | Some (option_string, explicit_arg) =>
          match lookup_option option_string with
          | Some a => Some (OptionTuple (Some a) option_string (Some explicit_arg))
          | None => None
          end
      | None => None
      end in
    match by_equals with
    | Some r => r
    | None =>
    match get_option_tuples arg_string with
    | _ :: _ :: _ => Ambiguous
    | [(a, o, e)] => OptionTuple (Some a) o e
    | [] =>
        (* no option string of this parser looks like a negative number *)
        if negative_number_like B arg_string then Positional
        else if str.contains arg_string " " then Positional
        else OptionTuple None arg_string None
    end
    end
  end.

(** One entry of [arg_strings_pattern] together with its string:
    ['A'], ['-'] (the first ["--"]) or ['O']. *)
Inductive token : Type :=
| tok_A (s : string)
| tok_dashdash
| tok_O (s : string) (a : option Action) (option_string : string)
    (explicit_arg : option string).

Fixpoint classify (arg_strings : list string) : Exn + list token :=
  match arg_strings with
  | [] => inr []
  | s :: rest =>
      if String.eqb s "--" then inr (tok_dashdash :: List.map tok_A rest)
      else match parse_optional s with
           | Ambiguous => inl error
           | Positional => (fun ts => tok_A s :: ts) <$> classify rest
           | OptionTuple a o e => (fun ts => tok_O s a o e :: ts) <$> classify rest
           end
  end.

(** [_get_value]: the [type=] conversion; [None] is its [ArgumentError]. *)
Definition get_value (ty : argtype) (arg_string : string) : option pyval :=
  match ty with
  | type_str => Some (PyStr arg_string)
  | type_Path => Some (PyPath (of_str arg_string))
  | type_float => PyFloat <$> py_float B arg_string
  end.

(** [_get_values] for one argument string: a ["--"] is removed first,
    and the empty list that remains is stored as it is. *)
Definition get_values (ty : argtype) (arg_string : string) : option pyval :=
  if String.eqb arg_string "--" then Some PyEmptyList
  else get_value ty arg_string.

(** [take_action] for a store action with its single argument *)
Definition take_store (a : Action) (ty : argtype) (arg_string : string)
    (ns : Namespace) : Exn + Namespace :=
  match get_values ty arg_string with
  | Some v => inr (<[dest a := v]> ns)
  | None => inl error
  end.

(** The loop of [consume_optional] that splits ["-xyz"] after an action
    without arguments: [rest] is the explicit argument left, [next] tells
    whether the following command-line string is an ['A'].  The result
    is whether the loop ends without an [ArgumentError]. *)
Fixpoint split_flags (rest : string) (next : bool) : bool :=
  match rest with
  | EmptyString => true
  | String c rest' =>
      match lookup_option (String "-" (String c EmptyString)) with
      | None => false
      | Some a =>
          if takes_argument a then
            match rest' with EmptyString => next | _ => true end
          else split_flags rest' next
      end
  end.

(** The alternation of [_parse_known_args] for a parser without
    positionals: strings that are not consumed by an option are extras. *)
Fixpoint consume (ts : list token) (ns : Namespace) (seen : list string)
    (extras : list string) : Exn + (Namespace * list string * list string) :=
  match ts with
  | [] => inr (ns, seen, extras)
  | tok_A s :: ts' => consume ts' ns seen (extras ++ [s])
  | tok_dashdash :: ts' => consume ts' ns seen (extras ++ ["--"])
  | tok_O s None _ _ :: ts' => consume ts' ns seen (extras ++ [s])
  | tok_O _ (Some a) option_string explicit_arg :: ts' =>
      match action_kind a, explicit_arg with
      | store ty _ _, Some e =>
          ns' ← take_store a ty e ns;
          consume ts' ns' (dest a :: seen) extras
      | store ty _ _, None =>
          match ts' with
          | tok_A v :: ts'' =>
              ns' ← take_store a ty v ns;
              consume ts'' ns' (dest a :: seen) extras
          | _ => inl error
          end
      | help, Some e =>
          if negb (str.startswith option_string "--")
             && negb (String.eqb e "")
             && split_flags e (match ts' with tok_A _ :: _ => true | _ => false end)
          then inl help_exit
          else inl error
      | help, None => inl help_exit
      end
  end.

Definition defaults : Namespace :=
  List.fold_left (fun ns a =>
    match action_kind a with
    | store _ _ d => if decide (is_Some (ns !! dest a)) then ns else <[dest a := d]> ns
    | help => ns
    end) actions ∅.

Definition parse_args (arg_strings : list string) : Exn + Namespace :=
  ts ← classify arg_strings;
  '(ns, seen, extras) ← consume ts defaults [] [];
  if List.existsb (fun a => is_required a
                    && negb (List.existsb (String.eqb (dest a)) seen)) actions
  then inl error
  else match extras with
       | [] => inr ns
       | _ :: _ => inl error
       end.

(** Whether a command-line string is recognised as an option string of
    the action with destination [d]: written out, abbreviated, or with
    an attached value. *)
Definition names_dest (d : string) (arg_string : string) : bool :=
  match parse_optional arg_string with
  | OptionTuple (Some a) _ _ => String.eqb (dest a) d
  | _ => false
  end.

Fixpoint before_dashdash (arg_strings : list string) : list string :=
  match arg_strings with
  | [] => []
  | s :: rest => if String.eqb s "--" then [] else s :: before_dashdash rest
  end.

(** The command line supplies the option with destination [d]. *)
Definition supplies (d : string) (arg_strings : list string) : bool :=
  List.existsb (names_dest d) (before_dashdash arg_strings).

End Parser.

End argparse.

(** ** Programs over the external calls of the script *)

(** A coordinate array: one row per point.  Exact rationals stand for the
    floating-point entries. *)
Definition ndarray : Type := list (list Q).

Inductive scalar : Type :=
| Int (n : Z)
| Float (x : Q)
| NaN.

(** [vars(metrics)]: the attributes of the engine's result, in order. *)
Definition SimpleNamespace : Type := list (string * scalar).

Record DataFrame : Type := {
  df_columns : list string;
  df_index : list Z;
  df_rows : list (list scalar)
}.

(** [pd.DataFrame(d, index=index)] for a dict of scalars: every scalar is
    broadcast along the index. *)
Definition mkDataFrame (d : SimpleNamespace) (index : list Z) : DataFrame :=
  {| df_columns := List.map fst d;
     df_index := index;
     df_rows := List.map (fun _ => List.map snd d) index |}.

Inductive Call : Type :=
| glob (self : Path) (pattern : string)
| read_coords_csv (fname : Path)
| read_coords_csv3d (fname : Path)
| points_matching_dataset (p1 p2 : list ndarray) (cutoff_distance : pyval)
    (by_image : bool)
| mkdir (self : Path) (parents exist_ok : bool)
| to_csv (df : DataFrame) (path : Path) (index : bool).

Definition answer (c : Call) : Type :=
  match c with
  | glob _ _ => list Path
  | read_coords_csv _ | read_coords_csv3d _ => ndarray
  | points_matching_dataset _ _ _ _ => SimpleNamespace
  | mkdir _ _ _ | to_csv _ _ _ => unit
  end.

Inductive Prog (A : Type) : Type :=
| Ret (a : A)
| Raise (e : Exn)
| Do (c : Call) (k : answer c -> Prog A).
Arguments Ret {A} a.
Arguments Raise {A} e.
Arguments Do {A} c k.

Fixpoint prog_bind {A B : Type} (f : A -> Prog B) (p : Prog A) : Prog B :=
  match p with
  | Ret a => f a
  | Raise e => Raise e
  | Do c k => Do c (fun x => prog_bind f (k x))
  end.

#[global] Instance prog_ret : MRet Prog := @Ret.
#[global] Instance prog_mbind : MBind Prog := @prog_bind.
#[global] Instance prog_fmap : FMap Prog := fun _ _ f p => prog_bind (fun a => Ret (f a)) p.

Definition call (c : Call) : Prog (answer c) := Do c Ret.

(** [tuple(f(x) for x in xs)]: the calls are made in order, the first
    exception ends the comprehension. *)
Fixpoint tuple_of {A B : Type} (f : A -> Prog B) (xs : list A) : Prog (list B) :=
  match xs with
  | [] => Ret []
  | x :: xs' => y ← f x; ys ← tuple_of f xs'; Ret (y :: ys)
  end.

(** An environment answers every call, possibly by raising, and may change
    the world [W] it keeps.  A run records each call with its reply. *)
Definition Handler (W : Type) : Type :=
  forall c : Call, W -> (Exn + answer c) * W.

Record Event : Type := Ev {
  ev_call : Call;
  ev_reply : Exn + answer ev_call
}.

Record Outcome (W A : Type) : Type := {
  result : Exn + A;
  world : W;
  trace : list Event
}.
Arguments result {W A} o.
Arguments world {W A} o.
Arguments trace {W A} o.

Definition calls {W A : Type} (o : Outcome W A) : list Call :=
  List.map ev_call (trace o).

Fixpoint exec {W A : Type} (h : Handler W) (p : Prog A) (w : W) : Outcome W A :=
  match p with
  | Ret a => {| result := inr a; world := w; trace := [] |}
  | Raise e => {| result := inl e; world := w; trace := [] |}
  | Do c k =>
      match h c w with
      | (inl e, w') => {| result := inl e; world := w'; trace := [Ev c (inl e)] |}
      | (inr x, w') =>
          let o := exec h (k x) w' in
          {| result := result o; world := world o; trace := Ev c (inr x) :: trace o |}
      end
  end.

(** [all_calls P p]: every call that [p] can issue, whatever the replies,
    satisfies [P]. *)
Fixpoint all_calls {A : Type} (P : Call -> Prop) (p : Prog A) : Prop :=
  match p with
  | Ret _ | Raise _ => True
  | Do c k => P c /\ forall x, all_calls P (k x)
  end.

(** [may_call p c]: some run of [p] issues the call [c]. *)
Inductive may_call {A : Type} : Prog A -> Call -> Prop :=
| may_call_here c k : may_call (Do c k) c
| may_call_later c k x c' : may_call (k x) c' -> may_call (Do c k) c'.

(** ** The script *)

Module Script.
Import argparse.

(** [Path(x)] on a namespace attribute *)
Definition Path_ (x : pyval) : Prog Path :=
  match x with
  | PyStr s => Ret (of_str s)
  | PyPath p => Ret p
  | PyNone | PyFloat _ | PyEmptyList =>
      Raise (TypeError "expected str, bytes or os.PathLike object")
  end.

Definition stems_match (gt_f pred_f : Path) : bool :=
  str.startswith (stem gt_f) (str.split_0 (stem pred_f) "_predict").

Definition is_3d_default : bool := false.

Definition load_data (gt_path pred_path : pyval) (is_3d : bool)
  : Prog (list ndarray * list ndarray) :=
  gt_path ← Path_ gt_path;
  pred_path ← Path_ pred_path;
  gt_files ← sorted <$> call (glob gt_path "*.csv");
  pred_files ← sorted <$> call (glob pred_path "*.csv");
  if negb (length gt_files =? length pred_files)%nat then
    Raise (ValueError ("Number of files in GT (" +:+ pretty (length gt_files)
                       +:+ ") and predictions " +:+ pretty (length pred_files)
                       +:+ " do not match"))
  else if negb (List.forallb (fun '(gt_f, pred_f) => stems_match gt_f pred_f)
                  (List.combine gt_files pred_files)) then
    Raise (ValueError
      "Ground truth and prediction files do not match. Please check the filenames.")
  else
    let _read_coords_fn : Path -> Prog ndarray :=
      if is_3d then fun fname => call (read_coords_csv3d fname)
      else fun fname => call (read_coords_csv fname) in
    gts ← tuple_of (fun gt_f => _read_coords_fn gt_f) gt_files;
    preds ← tuple_of (fun pred_f => _read_coords_fn pred_f) pred_files;
    Ret (gts, preds).

Definition parser : list Action :=
  [ {| option_strings := ["-h"; "--help"]; dest := "help"; action_kind := help |};
    {| option_strings := ["-gt"; "--ground-truth"]; dest := "ground_truth";
       action_kind := store type_str true PyNone |};
    {| option_strings := ["-p"; "--predictions"]; dest := "predictions";
       action_kind := store type_str true PyNone |};
    {| option_strings := ["-o"; "--outfile"]; dest := "outfile";
       action_kind := store type_Path false PyNone |};
    {| option_strings := ["--cutoff"]; dest := "cutoff";
       action_kind := store type_float false (PyFloat 3.0) |} ].

(** [args.name] *)
Definition getattr (args : Namespace) (name : string) : Prog pyval :=
  match args !! name with
  | Some v => Ret v
  | None => Raise (AttributeError name)
  end.

(** [main()] run with [sys.argv[1:] = argv] *)
Definition main (B : Builtins) (argv : list string) : Prog unit :=
  match parse_args B parser argv with
  | inl e => Raise e
  | inr args =>
      ground_truth ← getattr args "ground_truth";
      predictions ← getattr args "predictions";
      '(gts, preds) ← load_data ground_truth predictions is_3d_default;
      cutoff ← getattr args "cutoff";
      metrics ← call (points_matching_dataset gts preds cutoff true);
      let metrics_df := mkDataFrame metrics [0] in
      outfile ← getattr args "outfile";
      match outfile with
      | PyNone => Ret tt
      | PyPath outfile =>
          _ ← call (mkdir (parent outfile) true true);
          call (to_csv metrics_df outfile false)
      | PyStr _ | PyFloat _ | PyEmptyList =>
          Raise (AttributeError "parent")
      end
  end.

End Script.

(** ** A concrete choice of builtins, for running the model

    [float] on plain decimal literals (an optional sign, digits, an optional
    fraction), exact for the inputs that denote binary fractions, and the
    negative-number pattern on ASCII digits. *)

Module Builtin.

Definition digit_value (c : ascii) : Z := Z.of_N (N_of_ascii c) - 48.

Fixpoint digits_value (acc : Z) (s : string) : Z :=
  match s with
  | EmptyString => acc
  | String c s' => digits_value (10 * acc + digit_value c) s'
  end.

Definition unsigned_decimal (s : string) : option Q :=
  let '(int_part, frac_part) :=
    match str.split_1 s "." with
    | Some (i, f) => (i, f)
    | None => (s, EmptyString)
    end in
  if str.all_digits int_part && str.all_digits frac_part
     && negb (String.eqb int_part "" && String.eqb frac_part "")
  then Some (Qred (Qmake (digits_value (digits_value 0 int_part) frac_part)
                         (Z.to_pos (10 ^ str.len frac_part))))
  else None.

Definition float (s : string) : option Q :=
  match s with
  | String "-" s' => Qopp <$> unsigned_decimal s'
  | String "+" s' => unsigned_decimal s'
  | _ => unsigned_decimal s
  end.

Definition negative_number (s : string) : bool :=
  match s with
  | String "-" r =>
      (negb (String.eqb r "") && str.all_digits r)
      || match str.split_1 r "." with
         | Some (a, b) =>
             str.all_digits a && negb (String.eqb b "") && str.all_digits b
         | None => false
         end
  | _ => false
  end.

Definition builtins : Builtins :=
  {| py_float := float; negative_number_like := negative_number |}.

End Builtin.

(** ** A file system for the environment

    Nodes are named by their path parts.  The empty path (the working
    directory) and the roots are directories that always exist.  There are
    no symbolic links and [".."] is an ordinary name. *)

Module FS.

Inductive node : Type :=
| Dir
| File (content : string).

Abbreviation fs := (gmap Path node).

Definition is_anchor (p : Path) : bool :=
  match p with
  | [] => true
  | [_] => has_root p
  | _ => false
  end.

Definition exists_ (w : fs) (p : Path) : bool :=
  match w !! p with
  | Some _ => true
  | None => is_anchor p
  end.

Definition is_dir (w : fs) (p : Path) : bool :=
  match w !! p with
  | Some Dir => true
  | Some (File _) => false
  | None => is_anchor p
  end.

(** [os.scandir(p)]: the names of the entries of [p], in the order the
    file system lists them *)
Definition scandir (w : fs) (p : Path) : list string :=
  omap (fun '(q, _) =>
          match q with
          | [] => None
          | _ :: _ => if decide (List.removelast q = p)
                      then Some (List.last q EmptyString) else None
          end)
       (map_to_list w).

(** [self.glob(pattern)] for a pattern of one component with a wildcard *)
Definition glob_ (w : fs) (self : Path) (pattern : string) : list Path :=
  if is_dir w self
  then child self <$> List.filter (str.fnmatch pattern) (scandir w self)
  else [].

Definition read (w : fs) (p : Path) : Exn + string :=
  match w !! p with
  | Some (File content) => inr content
  | Some Dir => inl (OSError IsADirectoryError)
  | None => inl (OSError (if is_anchor p then IsADirectoryError else FileNotFoundError))
  end.

(** [os.mkdir(p)] *)
Definition os_mkdir (w : fs) (p : Path) : oserror + fs :=
  if exists_ w p then inl FileExistsError
  else if is_dir w (parent p) then inr (<[p := Dir]> w)
  else if exists_ w (parent p) then inl NotADirectoryError
  else inl FileNotFoundError.

(** [Path.mkdir(parents, exist_ok)]; the recursion on the parent is
    bounded by the number of parts. *)
Fixpoint mkdir_ (fuel : nat) (w : fs) (p : Path) (parents exist_ok : bool)
  : (Exn + unit) * fs :=
  match os_mkdir w p with
  | inr w' => (inr tt, w')
  | inl FileNotFoundError =>
      if negb parents || bool_decide (parent p = p)
      then (inl (OSError FileNotFoundError), w)
      else match fuel with
           | O => (inl (OSError FileNotFoundError), w)
           | S fuel' =>
               match mkdir_ fuel' w (parent p) true true with
               | (inl e, w1) => (inl e, w1)
               | (inr _, w1) => mkdir_ fuel' w1 p false exist_ok
               end
           end
  | inl e =>
      if negb exist_ok || negb (is_dir w p) then (inl (OSError e), w)
      else (inr tt, w)
  end.

(** [open(p, "w")] followed by writing [content] *)
Definition write (w : fs) (p : Path) (content : string) : (Exn + unit) * fs :=
  if is_dir w p then (inl (OSError IsADirectoryError), w)
  else if is_dir w (parent p) then (inr tt, <[p := File content]> w)
  else if exists_ w (parent p) then (inl (OSError NotADirectoryError), w)
  else (inl (OSError FileNotFoundError), w).

(** The library functions behind the calls: the two CSV parsers, the
    engine and the CSV rendering of a frame. *)
Record Library : Type := {
  parse_coords_csv : string -> Exn + ndarray;
  parse_coords_csv3d : string -> Exn + ndarray;
  engine : list ndarray -> list ndarray -> pyval -> bool -> Exn + SimpleNamespace;
  render_csv : DataFrame -> bool -> string
}.

Definition handler (L : Library) : Handler fs := fun c w =>
  match c as c return (Exn + answer c) * fs with
  | glob self pattern => (inr (glob_ w self pattern), w)
  | read_coords_csv fname => (read w fname ≫= parse_coords_csv L, w)
  | read_coords_csv3d fname => (read w fname ≫= parse_coords_csv3d L, w)
  | points_matching_dataset p1 p2 cutoff_distance by_image =>
      (engine L p1 p2 cutoff_distance by_image, w)
  | mkdir self parents exist_ok => mkdir_ (length self) w self parents exist_ok
  | to_csv df path index => write w path (render_csv L df index)
  end.

End FS.

(** ** The matching-and-metrics engine

    The script only calls [points_matching_dataset]; the function itself is
    imported from [spotiflow.utils] and its code is not among the sources.
    The engine is therefore written from sections 4.1 to 4.4 of the
    specification.  A Euclidean distance is kept as its square, which is
    rational for rational coordinates. *)

Module Engine.

Abbreviation Point := (list Q).
Abbreviation CoordinateSet := (list Point).

(** Modelled from the spec: the fatal errors of section 7 (the engine's
    code is missing). *)
Inductive EngineError : Type :=
| ConfigurationError
| InvalidInputError.

Definition Qltb (x y : Q) : bool := negb (Qle_bool y x).

(** Modelled from the spec: an entry of the Distance Matrix of section 3,
    the distance [sqrt radicand]. *)
Record Distance : Type := Sqrt { radicand : Q }.

Definition value (d : Distance) : R := sqrt (Q2R (radicand d)).

(** Modelled from the spec: the test [distance < cutoff] of section 3,
    decided on the squares; a cutoff that is not positive is above no
    distance. *)
Definition below (d : Distance) (c : Q) : bool :=
  Qltb 0%Q c && Qltb (radicand d) (c * c)%Q.

(** Modelled from the spec: the square of the Euclidean distance between
    two points. *)
Definition sqdist (p q : Point) : Q :=
  List.fold_right Qplus 0%Q
    (List.map (fun '(a, b) => ((a - b) * (a - b))%Q) (List.combine p q)).

Abbreviation Matrix := (list (list Distance)).

Definition has_dim (d : nat) (s : CoordinateSet) : bool :=
  List.forallb (fun p => (length p =? d)%nat) s.

(** Modelled from the spec: the Pairwise Distance Evaluator of section 4.1
    (its code is missing).  Both sets must share one dimensionality, 2 or
    3; the result has one row per ground-truth point. *)
Definition distances (gt pred : CoordinateSet) : EngineError + Matrix :=
  if (has_dim 2 gt && has_dim 2 pred) || (has_dim 3 gt && has_dim 3 pred)
  then inr ((fun g => (fun p => Sqrt (sqdist g p)) <$> pred) <$> gt)
  else inl ConfigurationError.

Abbreviation Matching := (list (nat * nat)).

Definition entry (D : Matrix) (i j : nat) : option Distance :=
  D !! i ≫= fun row => row !! j.

(** Modelled from the spec: the cost matrix of section 4.2 handed to the
    assignment solver; [None] is the sentinel that replaces the entries at
    or above the cutoff. *)
Definition cost_matrix (D : Matrix) (cutoff : Q) : list (list (option Distance)) :=
  List.map (List.map (fun d => if below d cutoff then Some d else None)) D.

Definition Solver : Type := list (list (option Distance)) -> Matching.

(** Modelled from the spec: the uniqueness of section 3, no row and no
    column is assigned twice. *)
Definition is_assignment (m : Matching) : Prop :=
  NoDup (fst <$> m) /\ NoDup (snd <$> m).

(** Modelled from the spec: the Optimal Assignment Matcher of section 4.2
    (its code is missing).  The assignment solver is a parameter; the
    pairs it assigns are kept only when their distance is below the
    cutoff, which also drops pairs with a padding node. *)
Definition matcher (solve : Solver) (D : Matrix) (cutoff : Q) : Matching :=
  if Qle_bool cutoff 0%Q then []
  else if (length D =? 0)%nat || List.forallb (fun row => (length row =? 0)%nat) D
  then []
  else List.filter (fun '(i, j) =>
                      match entry D i j with
                      | Some d => below d cutoff
                      | None => false
                      end)
                   (solve (cost_matrix D cutoff)).

Record SampleMetrics : Type := {
  tp : Z;
  fn : Z;
  fp : Z;
  precision : Q;
  recall : Q;
  f1 : Q
}.

(** Modelled from the spec: the derivations of section 4.3 (their code is
    missing) from the number of matched pairs and the two set sizes, with
    the stated fallbacks for zero denominators. *)
Definition derive (TP gt_count pred_count : Z) : SampleMetrics :=
  let precision :=
    if 0 <? pred_count then (inject_Z TP / inject_Z pred_count)%Q
    else if gt_count =? 0 then 1%Q else 0%Q in
  let recall :=
    if 0 <? gt_count then (inject_Z TP / inject_Z gt_count)%Q
    else if pred_count =? 0 then 1%Q else 0%Q in
  {| tp := TP;
     fn := gt_count - TP;
     fp := pred_count - TP;
     precision := precision;
     recall := recall;
     f1 := if Qltb 0%Q (precision + recall)%Q
           then (2 * precision * recall / (precision + recall))%Q
           else 0%Q |}.

(** Modelled from the spec: the Per-Sample Metrics Calculator of section
    4.3 (its code is missing), without the mean of the matched distances,
    which is not rational. *)
Definition metrics (gt_count pred_count : Z) (matching : Matching) : SampleMetrics :=
  derive (Z.of_nat (length matching)) gt_count pred_count.

(** Modelled from the spec: one step of the Dataset Aggregator of section
    4.4 (its code is missing): distances, matching, metrics for a sample. *)
Definition evaluate_sample (solve : Solver) (gt pred : CoordinateSet) (cutoff : Q)
  : EngineError + (Matching * SampleMetrics) :=
  match distances gt pred with
  | inl e => inl e
  | inr D =>
      let matching := matcher solve D cutoff in
      inr (matching,
           metrics (Z.of_nat (length gt)) (Z.of_nat (length pred)) matching)
  end.

(** A solver for running the model: row [i] is assigned column [i]. *)
Definition diagonal : Solver := fun C =>
  let n := length C in
  let m := List.fold_right (fun row acc => Nat.max (length row) acc) 0%nat C in
  (fun i => (i, i)) <$> seq 0 (Nat.min n m).

Definition Qsum (xs : list Q) : Q := List.fold_right Qplus 0%Q xs.
Definition Zsum (xs : list Z) : Z := List.fold_right Z.add 0 xs.

Definition mean (xs : list Q) : scalar :=
  match xs with
  | [] => NaN
  | _ :: _ => Float (Qred (Qsum xs / inject_Z (Z.of_nat (length xs))))
  end.

(** Modelled from the spec: the iteration of the Dataset Aggregator of
    section 4.4 over the aligned sample pairs; collections of unequal
    length are a configuration error. *)
Fixpoint evaluate_all (solve : Solver) (gts preds : list CoordinateSet) (cutoff : Q)
  : EngineError + list SampleMetrics :=
  match gts, preds with
  | [], [] => inr []
  | gt :: gts', pred :: preds' =>
      match evaluate_sample solve gt pred cutoff with
      | inl e => inl e
      | inr (_, m) => (fun ms => m :: ms) <$> evaluate_all solve gts' preds' cutoff
      end
  | _, _ => inl ConfigurationError
  end.

(** Modelled from the spec: the Dataset Aggregator of section 4.4 (its
    code is missing), with both policies computed from the same
    per-sample results: the by-image averages, or the ratios of the
    pooled counts. *)
Definition dataset_metrics (solve : Solver) (gts preds : list CoordinateSet)
    (cutoff : Q) (by_image : bool) : EngineError + SimpleNamespace :=
  match evaluate_all solve gts preds cutoff with
  | inl e => inl e
  | inr ms =>
      let TP := Zsum (tp <$> ms) in
      let FN := Zsum (fn <$> ms) in
      let FP := Zsum (fp <$> ms) in
      let pooled := derive TP (TP + FN) (TP + FP) in
      let ratios :=
        if by_image then
          [("precision", mean (precision <$> ms)); ("recall", mean (recall <$> ms));
           ("f1", mean (f1 <$> ms))]
        else
          [("precision", Float (Qred (precision pooled)));
           ("recall", Float (Qred (recall pooled)));
           ("f1", Float (Qred (f1 pooled)))] in
      inr (ratios ++ [("tp", Int TP); ("fp", Int FP); ("fn", Int FN)])
  end.

End Engine.

(** ** A library and a directory tree for running the script

    Stand-ins for the library functions behind the calls: a reader of
    header-plus-rows CSV text, the engine above with the diagonal solver,
    and a rendering of the frame with fractions for the numbers. *)

Module Example.

Definition newline : ascii := "010"%char.

Fixpoint floats (fields : list string) : option (list Q) :=
  match fields with
  | [] => Some []
  | f :: fields' =>
      x ← Builtin.float f; xs ← floats fields'; Some (x :: xs)
  end.

Fixpoint rows (dims : nat) (lines : list string) : Exn + ndarray :=
  match lines with
  | [] => inr []
  | l :: lines' =>
      if String.eqb l "" then rows dims lines'
      else match floats (str.split l ",") with
           | Some xs =>
               if (length xs =? dims)%nat
               then (fun r => xs :: r) <$> rows dims lines'
               else inl (ValueError "columns")
           | None => inl (ValueError "number")
           end
  end.

Definition parse_csv (dims : nat) (content : string) : Exn + ndarray :=
  match str.split content newline with
  | _header :: lines => rows dims lines
  | [] => inl (ValueError "empty")
  end.

Definition engine (p1 p2 : list ndarray) (cutoff_distance : pyval) (by_image : bool)
  : Exn + SimpleNamespace :=
  match cutoff_distance with
  | PyFloat c =>
      match Engine.dataset_metrics Engine.diagonal p1 p2 c by_image with
      | inl _ => inl (ValueError "engine")
      | inr m => inr m
      end
  | _ => inl (TypeError "cutoff_distance")
  end.

Definition render_scalar (x : scalar) : string :=
  match x with
  | Int n => pretty n
  | Float q => pretty (Qnum q) +:+ "/" +:+ pretty (Zpos (Qden q))
  | NaN => ""
  end.

Definition render (df : DataFrame) (index : bool) : string :=
  String.concat (String newline "")
    (String.concat "," (df_columns df)
     :: List.map (fun r => String.concat "," (render_scalar <$> r)) (df_rows df)).

Definition library : FS.Library :=
  {| FS.parse_coords_csv := parse_csv 2;
     FS.parse_coords_csv3d := parse_csv 3;
     FS.engine := engine;
     FS.render_csv := render |}.

Definition csv2 (pts : list (string * string)) : string :=
  String.concat (String newline "")
    ("y,x" :: List.map (fun '(y, x) => y +:+ "," +:+ x) pts).

(** Two images, each with its prediction: the first prediction file name
    carries the [_predict] suffix. *)
Definition tree : FS.fs :=
  list_to_map
    [ (["gt"], FS.Dir);
      (["pred"], FS.Dir);
      (["gt"; "img2.csv"], FS.File (csv2 [("5", "5")]));
      (["gt"; "img1.csv"], FS.File (csv2 [("0", "0"); ("10", "10")]));
      (["gt"; "notes.txt"], FS.File "not a table");
      (["pred"; "img2.csv"], FS.File (csv2 [("5", "5.5")]));
      (["pred"; "img1_predict.csv"], FS.File (csv2 [("0.5", "0.5"); ("20", "20")])) ].

(** A prediction whose stem, cut at [_predict], is a proper prefix of the
    stem of the ground truth it is paired with. *)
Definition prefix_tree : FS.fs :=
  list_to_map
    [ (["gt"], FS.Dir);
      (["pred"], FS.Dir);
      (["gt"; "img10.csv"], FS.File (csv2 [("0", "0")]));
      (["pred"; "img1_predict_v2.csv"], FS.File (csv2 [("0", "0")])) ].

(** One more ground truth than predictions. *)
Definition uneven_tree : FS.fs :=
  list_to_map
    [ (["gt"], FS.Dir);
      (["pred"], FS.Dir);
      (["gt"; "a.csv"], FS.File (csv2 [("0", "0")]));
      (["gt"; "b.csv"], FS.File (csv2 [("1", "1")]));
      (["pred"; "a.csv"], FS.File (csv2 [("0", "0")])) ].

(** Directories without any CSV file. *)
Definition bare_tree : FS.fs :=
  list_to_map
    [ (["gt"], FS.Dir);
      (["pred"], FS.Dir);
      (["gt"; "readme.txt"], FS.File "nothing here") ].

End Example.

(** ** Two more directory trees *)

Module Trees.
Import FS.

(** Images numbered without padding, each prediction named after its
    ground truth with the [_predict] suffix. *)
Definition numbered : fs :=
  list_to_map
    [ (["gt"], Dir);
      (["pred"], Dir);
      (["gt"; "img1.csv"], File (Example.csv2 [("0", "0")]));
      (["gt"; "img10.csv"], File (Example.csv2 [("1", "1")]));
      (["pred"; "img1_predict.csv"], File (Example.csv2 [("0", "0")]));
      (["pred"; "img10_predict.csv"], File (Example.csv2 [("1", "1")])) ].

(** A ground truth whose second file is not a table of numbers. *)
Definition broken : fs :=
  list_to_map
    [ (["gt"], Dir);
      (["pred"], Dir);
      (["gt"; "a.csv"], File (Example.csv2 [("0", "0")]));
      (["gt"; "b.csv"], File (Example.csv2 [("one", "two")]));
      (["pred"; "a.csv"], File (Example.csv2 [("0", "0")]));
      (["pred"; "b.csv"], File (Example.csv2 [("1", "1")])) ].

End Trees.

(** ** Vocabulary for the statements about [load_data] *)

(** The reader [load_data] selects, and the event of a successful read. *)
Definition reader (is_3d : bool) : Path -> Prog ndarray :=
  if is_3d then fun fname => call (read_coords_csv3d fname)
  else fun fname => call (read_coords_csv fname).

Definition read_event (is_3d : bool) (fname : Path) (a : ndarray) : Event :=
  if is_3d then Ev (read_coords_csv3d fname) (inr a)
  else Ev (read_coords_csv fname) (inr a).

Definition glob_event (dir : Path) (files : list Path) : Event :=
  Ev (glob dir "*.csv") (inr files).

Definition files_match (gt_files pred_files : list Path) : bool :=
  List.forallb (fun '(gt_f, pred_f) => Script.stems_match gt_f pred_f)
    (List.combine gt_files pred_files).

Definition count_message (n m : nat) : string :=
  "Number of files in GT (" +:+ pretty n +:+ ") and predictions " +:+ pretty m
  +:+ " do not match".

Definition names_message : string :=
  "Ground truth and prediction files do not match. Please check the filenames.".

Definition reader_call (is_3d : bool) (fname : Path) : Call :=
  if is_3d then read_coords_csv3d fname else read_coords_csv fname.

(** The environment answers the call [c] in the world [w] without raising. *)
Definition succeeds {W : Type} (h : Handler W) (c : Call) (w : W) : Prop :=
  match (h c w).1 with inr _ => True | inl _ => False end.

(** The check of [load_data] on one aligned pair, and the relation the
    specification words as "the prediction stem, with any [_predict] suffix
    stripped, matches the ground-truth stem". *)
Definition stem_is_prefix (gt_f pred_f : Path) : Prop :=
  str.startswith (stem gt_f) (str.split_0 (stem pred_f) "_predict") = true.

Definition strip_predict_suffix (s : string) : string :=
  if str.endswith s "_predict" then str.slice_to s (str.len s - 8) else s.

Definition stripped_stem_equal (gt_f pred_f : Path) : Prop :=
  strip_predict_suffix (stem pred_f) = stem gt_f.

(** Calls that leave the file system as it is. *)
Definition read_only (c : Call) : Prop :=
  match c with
  | mkdir _ _ _ | to_csv _ _ _ => False
  | _ => True
  end.

Definition by_image_of (c : Call) : option bool :=
  match c with
  | points_matching_dataset _ _ _ by_image => Some by_image
  | _ => None
  end.

Definition cutoff_of (c : Call) : option pyval :=
  match c with
  | points_matching_dataset _ _ cutoff_distance _ => Some cutoff_distance
  | _ => None
  end.

Definition is_engine_call (c : Call) : Prop := is_Some (by_image_of c).

(** The four attributes of a parsed namespace. *)
Definition attributes (r : Exn + gmap string pyval)
  : Exn + option pyval * option pyval * option pyval * option pyval :=
  (fun ns : gmap string pyval =>
     (ns !! "ground_truth", ns !! "predictions", ns !! "outfile", ns !! "cutoff")) <$> r.

Definition is_3d_read (c : Call) : Prop :=
  match c with read_coords_csv3d _ => True | _ => False end.

(** The calls [load_data] makes: listings with the pattern ["*.csv"] and
    reads with the reader its flag selects. *)
Definition loader_call (is_3d : bool) (c : Call) : Prop :=
  match c with
  | glob _ pattern => pattern = "*.csv"
  | read_coords_csv _ => is_3d = false
  | read_coords_csv3d _ => is_3d = true
  | _ => False
  end.

(** The environment [h] with every directory listing rearranged by
    [shuffle]. *)
Definition relisted {W : Type} (shuffle : list Path -> list Path) (h : Handler W)
  : Handler W := fun c w =>
  match c as c return (Exn + answer c) * W with
  | glob self pattern =>
      match h (glob self pattern) w with
      | (inr files, w') => (inr (shuffle files), w')
      | (inl e, w') => (inl e, w')
      end
  | read_coords_csv fname => h (read_coords_csv fname) w
  | read_coords_csv3d fname => h (read_coords_csv3d fname) w
  | points_matching_dataset p1 p2 cutoff_distance by_image =>
      h (points_matching_dataset p1 p2 cutoff_distance by_image) w
  | mkdir self parents exist_ok => h (mkdir self parents exist_ok) w
  | to_csv df path index => h (to_csv df path index) w
  end.

(** A failed read, as an event. *)
Definition failed_read (is_3d : bool) (fname : Path) (e : Exn) : Event :=
  if is_3d then Ev (read_coords_csv3d fname) (inl e)
  else Ev (read_coords_csv fname) (inl e).

Definition read_events (is_3d : bool) (files : list Path) (arrays : list ndarray)
  : list Event :=
  List.map (fun '(f, a) => read_event is_3d f a) (List.combine files arrays).

(** ** Vocabulary for the statements about [main] *)

(** The run of the statements of [main] that follow the loader, from the
    arrays it returned: the engine, then the directory and the table when
    [args.outfile] is a path. *)
Definition after_load {W : Type} (h : Handler W) (w : W)
    (gts preds : list ndarray) (cutoff outfile : pyval) : Outcome W unit :=
  let c := points_matching_dataset gts preds cutoff true in
  match h c w with
  | (inl e, w2) => {| result := inl e; world := w2; trace := [Ev c (inl e)] |}
  | (inr metrics, w2) =>
      match outfile with
      | PyNone => {| result := inr tt; world := w2; trace := [Ev c (inr metrics)] |}
      | PyPath o =>
          let cm := mkdir (parent o) true true in
          let ct := to_csv (mkDataFrame metrics [0]) o false in
          match h cm w2 with
          | (inl e, w3) =>
              {| result := inl e; world := w3;
                 trace := [Ev c (inr metrics); Ev cm (inl e)] |}
          | (inr u, w3) =>
              {| result := (h ct w3).1; world := (h ct w3).2;
                 trace := [Ev c (inr metrics); Ev cm (inr u); Ev ct (h ct w3).1] |}
          end
      | PyStr _ | PyFloat _ | PyEmptyList =>
          {| result := inl (AttributeError "parent"); world := w2;
             trace := [Ev c (inr metrics)] |}
      end
  end.

(** The kinds of value each attribute of the namespace can hold. *)
Definition is_str_or_list (v : pyval) : Prop :=
  match v with PyStr _ | PyEmptyList => True | _ => False end.
Definition is_float_or_list (v : pyval) : Prop :=
  match v with PyFloat _ | PyEmptyList => True | _ => False end.
Definition is_none_path_or_list (v : pyval) : Prop :=
  match v with PyNone | PyPath _ | PyEmptyList => True | _ => False end.

(** In the pattern of [parse_args], the string that follows an option and
    is taken as its value is not the separator [--]. *)
Fixpoint values_ok (ts : list argparse.token) : Prop :=
  match ts with
  | [] => True
  | argparse.tok_O _ _ _ _ :: ts' =>
      match ts' with
      | argparse.tok_A v :: _ => v <> "--"
      | _ => True
      end /\ values_ok ts'
  | _ :: ts' => values_ok ts'
  end.

(** A path that names its entry the way the file system lists it: no part
    is [..], [.] or empty, and the root is not the double slash.  Two such
    paths, both relative or both absolute, reach the same entry only when
    they are equal. *)
Definition canonical (p : Path) : bool :=
  List.forallb
    (fun x => negb (String.eqb x "..") && negb (String.eqb x ".")
              && negb (String.eqb x "")) p
  && negb (String.eqb (List.hd "" p) "//").

(** The namespace while the options are consumed: the required
    attributes may still hold their default [None]. *)
Definition typed_namespace (ns : gmap string pyval) : Prop :=
  (exists v, ns !! "ground_truth" = Some v /\ (v = PyNone \/ is_str_or_list v))
  /\ (exists v, ns !! "predictions" = Some v /\ (v = PyNone \/ is_str_or_list v))
  /\ (exists v, ns !! "outfile" = Some v /\ is_none_path_or_list v)
  /\ (exists v, ns !! "cutoff" = Some v /\ is_float_or_list v).

(** * Properties *)

(** ** Lexicographic order *)

Section LexFacts.
Context {A : Type} (cmp : A -> A -> comparison).
Hypothesis cmp_eq : forall x y, cmp x y = Eq -> x = y.
Hypothesis cmp_refl : forall x, cmp x x = Eq.
Hypothesis cmp_antisym : forall x y, cmp y x = CompOpp (cmp x y).
Hypothesis cmp_trans : forall x y z, cmp x y = Lt -> cmp y z = Lt -> cmp x z = Lt.

Lemma lex_eq l1 l2 : lex cmp l1 l2 = Eq -> l1 = l2.
Proof.
  revert l2; induction l1 as [|x l1 IH]; intros [|y l2]; simpl; try done.
  destruct (cmp x y) eqn:E; try done.
  intros H. f_equal; auto.
Qed.

Lemma lex_refl l : lex cmp l l = Eq.
Proof.
  induction l as [|x l IH]; simpl; [done|]. by rewrite cmp_refl.
Qed.

Lemma lex_antisym l1 l2 : lex cmp l2 l1 = CompOpp (lex cmp l1 l2).
Proof.
  revert l2; induction l1 as [|x l1 IH]; intros [|y l2]; simpl; try done.
  rewrite (cmp_antisym x y). destruct (cmp x y); simpl; auto.
Qed.

Lemma lex_trans l1 l2 l3 :
  lex cmp l1 l2 = Lt -> lex cmp l2 l3 = Lt -> lex cmp l1 l3 = Lt.
Proof.
  revert l2 l3; induction l1 as [|x l1 IH]; intros [|y l2] [|z l3]; simpl; try done.
  destruct (cmp x y) eqn:Exy; try done; destruct (cmp y z) eqn:Eyz; try done.
  - apply cmp_eq in Exy, Eyz. subst. rewrite cmp_refl. eauto.
  - apply cmp_eq in Exy. subst. by rewrite Eyz.
  - apply cmp_eq in Eyz. subst. by rewrite Exy.
  - by rewrite (cmp_trans _ _ _ Exy Eyz).
Qed.
End LexFacts.

Lemma ascii_compare_eq a b : Ascii.compare a b = Eq -> a = b.
Proof. apply Ascii.compare_eq_iff. Qed.

Lemma ascii_compare_refl a : Ascii.compare a a = Eq.
Proof. unfold Ascii.compare. apply N.compare_refl. Qed.

Lemma ascii_compare_trans a b c :
  Ascii.compare a b = Lt -> Ascii.compare b c = Lt -> Ascii.compare a c = Lt.
Proof.
  unfold Ascii.compare. rewrite !N.compare_lt_iff. apply N.lt_trans.
Qed.

Lemma string_compare_lex s t :
  String.compare s t = lex Ascii.compare (list_ascii_of_string s) (list_ascii_of_string t).
Proof.
  revert t; induction s as [|a s IH]; intros [|b t]; simpl; try done.
  rewrite IH. by destruct (Ascii.compare a b).
Qed.

Lemma list_ascii_of_string_inj s t :
  list_ascii_of_string s = list_ascii_of_string t -> s = t.
Proof.
  intros H. rewrite <- (string_of_list_ascii_of_string s),
    <- (string_of_list_ascii_of_string t). by rewrite H.
Qed.

Lemma string_compare_eq s t : String.compare s t = Eq -> s = t.
Proof. apply String.compare_eq_iff. Qed.

Lemma string_compare_refl s : String.compare s s = Eq.
Proof. rewrite string_compare_lex. apply lex_refl, ascii_compare_refl. Qed.

Lemma string_compare_trans s t u :
  String.compare s t = Lt -> String.compare t u = Lt -> String.compare s u = Lt.
Proof.
  rewrite !string_compare_lex.
  apply (lex_trans _ ascii_compare_eq ascii_compare_refl ascii_compare_trans).
Qed.

(** ** The order on paths and [sorted] *)

Lemma path_compare_eq p q : pathlib.compare p q = Eq -> p = q.
Proof. apply lex_eq, string_compare_eq. Qed.

Lemma path_compare_antisym p q : pathlib.compare q p = CompOpp (pathlib.compare p q).
Proof. apply lex_antisym. intros x y. apply String.compare_antisym. Qed.

Lemma path_compare_trans p q r :
  pathlib.compare p q = Lt -> pathlib.compare q r = Lt -> pathlib.compare p r = Lt.
Proof.
  apply (lex_trans _ string_compare_eq string_compare_refl string_compare_trans).
Qed.

(** Files of one directory are ordered by their names. *)
Lemma child_compare dir a b :
  pathlib.compare (child dir a) (child dir b) = String.compare a b.
Proof.
  unfold pathlib.compare, child. induction dir as [|d dir IH]; simpl.
  - by destruct (String.compare a b).
  - by rewrite string_compare_refl.
Qed.

#[global] Instance path_le_total : Total pathlib.le.
Proof.
  intros p q. unfold le, lt. rewrite (path_compare_antisym p q).
  destruct (pathlib.compare p q); simpl; auto.
Qed.

#[global] Instance path_le_trans : Transitive pathlib.le.
Proof.
  intros p q r. unfold le, lt. intros Hpq Hqr.
  destruct (pathlib.compare r p) eqn:Erp; try done.
  destruct (pathlib.compare r q) eqn:Erq; try done.
  - apply path_compare_eq in Erq. subst. by rewrite Erp in Hpq.
  - assert (Hqr' : pathlib.compare q r = Lt)
      by (rewrite (path_compare_antisym r q), Erq; done).
    by rewrite (path_compare_trans _ _ _ Hqr' Erp) in Hpq.
Qed.

#[global] Instance path_le_antisym : AntiSymm (=) pathlib.le.
Proof.
  intros p q. unfold le, lt. intros Hpq Hqp.
  rewrite (path_compare_antisym p q) in Hpq.
  destruct (pathlib.compare p q) eqn:E; try done.
  by apply path_compare_eq.
Qed.

Lemma sorted_Sorted l : Sorted pathlib.le (sorted l).
Proof. apply (Sorted_merge_sort pathlib.le). Qed.

Lemma sorted_Permutation l : sorted l ≡ₚ l.
Proof. apply (merge_sort_Permutation pathlib.le). Qed.

Lemma sorted_length l : length (sorted l) = length l.
Proof. apply Permutation_length, sorted_Permutation. Qed.

(** Any arrangement of the same paths that is in order is the one [sorted]
    returns: the outcome does not depend on the sorting algorithm. *)
Lemma sorted_unique l l' : Sorted pathlib.le l' -> l' ≡ₚ l -> l' = sorted l.
Proof.
  intros Hs Hp. apply (Sorted_unique pathlib.le); auto using sorted_Sorted.
  by rewrite Hp, sorted_Permutation.
Qed.

(** ** Programs: sequencing, runs and the calls they issue *)

Lemma exec_bind {W A B : Type} (h : Handler W) (p : Prog A) (f : A -> Prog B) w :
  exec h (p ≫= f) w =
  match result (exec h p w) with
  | inl e => {| result := inl e; world := world (exec h p w); trace := trace (exec h p w) |}
  | inr a =>
      let o := exec h (f a) (world (exec h p w)) in
      {| result := result o; world := world o; trace := trace (exec h p w) ++ trace o |}
  end.
Proof.
  revert w. induction p as [a|e|c k IH]; intros w; simpl.
  - by destruct (exec h (f a) w).
  - done.
  - destruct (h c w) as [[e|x] w']; simpl; [done|].
    change (prog_bind f (k x)) with (k x ≫= f). rewrite IH.
    by destruct (result (exec h (k x) w')).
Qed.

Lemma exec_call {W : Type} (h : Handler W) (c : Call) w :
  exec h (call c) w =
  {| result := (h c w).1; world := (h c w).2; trace := [Ev c (h c w).1] |}.
Proof. unfold call. simpl. by destruct (h c w) as [[e|x] w']. Qed.

Lemma all_calls_bind {A B : Type} (P : Call -> Prop) (p : Prog A) (f : A -> Prog B) :
  all_calls P p -> (forall a, all_calls P (f a)) -> all_calls P (p ≫= f).
Proof.
  intros Hp Hf. induction p as [a|e|c k IH]; simpl in *; auto.
  destruct Hp as [Hc Hk]. split; [done|]. intros x. apply IH, Hk.
Qed.

Lemma all_calls_fmap {A B : Type} (P : Call -> Prop) (p : Prog A) (f : A -> B) :
  all_calls P p -> all_calls P (f <$> p).
Proof. intros Hp. by apply (all_calls_bind P p (fun a => Ret (f a))). Qed.

Lemma all_calls_call (P : Call -> Prop) (c : Call) : P c -> all_calls P (call c).
Proof. by split. Qed.

Lemma all_calls_tuple_of {A B : Type} (P : Call -> Prop) (f : A -> Prog B) xs :
  (forall x, all_calls P (f x)) -> all_calls P (tuple_of f xs).
Proof.
  intros Hf. induction xs as [|x xs IH]; simpl; [done|].
  apply all_calls_bind; [done|]. intros y. by apply all_calls_bind.
Qed.

Lemma all_calls_exec {W A : Type} (P : Call -> Prop) (h : Handler W) (p : Prog A) w :
  all_calls P p -> Forall P (calls (exec h p w)).
Proof.
  revert w. induction p as [a|e|c k IH]; intros w Hp; simpl in *.
  - constructor.
  - constructor.
  - destruct Hp as [Hc Hk]. unfold calls. destruct (h c w) as [[e|x] w']; simpl.
    + by repeat constructor.
    + constructor; [done|]. by apply IH.
Qed.

Lemma all_calls_may_call {A : Type} (P : Call -> Prop) (p : Prog A) :
  all_calls P p <-> forall c, may_call p c -> P c.
Proof.
  split.
  - intros Hp c Hc. induction Hc as [c k|c k x c' Hc IH]; simpl in Hp.
    + by destruct Hp.
    + apply IH. by destruct Hp.
  - induction p as [a|e|c k IH]; intros H; simpl; auto.
    split.
    + apply H. constructor.
    + intros x. apply IH. intros c' Hc'. apply H. by econstructor.
Qed.

Lemma all_calls_impl {A : Type} (P Q : Call -> Prop) (p : Prog A) :
  (forall c, P c -> Q c) -> all_calls P p -> all_calls Q p.
Proof.
  intros HPQ. induction p as [a|e|c k IH]; simpl; auto.
  intros [Hc Hk]. split; auto.
Qed.

(** ** The calls of [load_data] and of [main] *)

Lemma load_data_calls (P : Call -> Prop) gt_path pred_path (is_3d : bool) :
  (forall p pat, P (glob p pat)) ->
  (forall f, P (if is_3d then read_coords_csv3d f else read_coords_csv f)) ->
  all_calls P (Script.load_data gt_path pred_path is_3d).
Proof.
  intros Hglob Hread. unfold Script.load_data.
  apply all_calls_bind; [by destruct gt_path|]. intros g.
  apply all_calls_bind; [by destruct pred_path|]. intros p.
  apply all_calls_bind; [by apply all_calls_fmap, all_calls_call|]. intros gt_files.
  apply all_calls_bind; [by apply all_calls_fmap, all_calls_call|]. intros pred_files.
  destruct (negb _); [done|]. destruct (negb _); [done|].
  assert (Hfn : forall f, all_calls P
    ((if is_3d then fun fname => call (read_coords_csv3d fname)
      else fun fname => call (read_coords_csv fname)) f)).
  { intros f. specialize (Hread f). destruct is_3d; by apply all_calls_call. }
  apply all_calls_bind; [by apply all_calls_tuple_of|]. intros gts.
  apply all_calls_bind; [by apply all_calls_tuple_of|]. done.
Qed.

Lemma main_calls (P : Call -> Prop) B argv :
  (forall p pat, P (glob p pat)) ->
  (forall f, P (read_coords_csv f)) ->
  (forall args cutoff gts preds,
     argparse.parse_args B Script.parser argv = inr args ->
     args !! "cutoff" = Some cutoff ->
     P (points_matching_dataset gts preds cutoff true)) ->
  (forall args outfile df,
     argparse.parse_args B Script.parser argv = inr args ->
     args !! "outfile" = Some (PyPath outfile) ->
     P (mkdir (parent outfile) true true) /\ P (to_csv df outfile false)) ->
  all_calls P (Script.main B argv).
Proof.
  intros Hglob Hread Hengine Hout. unfold Script.main.
  destruct (argparse.parse_args B Script.parser argv) as [e|args] eqn:Hparse; [done|].
  unfold Script.getattr.
  destruct (args !! "ground_truth") as [gt|]; [|done].
  destruct (args !! "predictions") as [pr|]; [|done].
  simpl. change (prog_bind ?f ?p) with (p ≫= f).
  apply all_calls_bind; [by apply load_data_calls|]. intros [gts preds].
  destruct (args !! "cutoff") as [cutoff|] eqn:Hcut; [|done].
  simpl. split; [by eapply Hengine|]. intros metrics.
  destruct (args !! "outfile") as [outfile|] eqn:Hof; [|done].
  simpl. destruct outfile as [|s|o|x|]; try done.
  destruct (Hout args o (mkDataFrame metrics [0]) eq_refl Hof) as [H1 H2].
  simpl. split; [done|]. intros _. by split.
Qed.

(** ** Runs of [load_data] *)

Lemma exec_reader_ok {W : Type} (h : Handler W) is_3d f w a :
  result (exec h (reader is_3d f) w) = inr a ->
  trace (exec h (reader is_3d f) w) = [read_event is_3d f a].
Proof.
  unfold reader, read_event.
  destruct is_3d; simpl; destruct (h _ w) as [[e|x] w']; simpl; intros [= ->]; done.
Qed.

Lemma exec_tuple_of_readers {W : Type} (h : Handler W) is_3d fs w arrays :
  result (exec h (tuple_of (reader is_3d) fs) w) = inr arrays ->
  length arrays = length fs
  /\ trace (exec h (tuple_of (reader is_3d) fs) w)
     = List.map (fun '(f, a) => read_event is_3d f a) (List.combine fs arrays).
Proof.
  revert w arrays. induction fs as [|f fs IH]; intros w arrays; simpl.
  - intros [= <-]. done.
  - rewrite exec_bind.
    destruct (result (exec h (reader is_3d f) w)) as [e|a] eqn:Ha; simpl; [done|].
    rewrite exec_bind.
    destruct (result (exec h (tuple_of (reader is_3d) fs) _)) as [e|ys] eqn:Hys;
      simpl; [done|].
    intros [= <-]. apply IH in Hys as [Hlen Htr]. simpl. split; [by f_equal|].
    rewrite (exec_reader_ok _ _ _ _ _ Ha), Htr. simpl. by rewrite app_nil_r.
Qed.

Lemma load_data_exec {W : Type} (h : Handler W) w gt_path pred_path is_3d
    gt_dir pred_dir l1 w1 l2 w2 :
  Script.Path_ gt_path = Ret gt_dir ->
  Script.Path_ pred_path = Ret pred_dir ->
  h (glob gt_dir "*.csv") w = (inr l1, w1) ->
  h (glob pred_dir "*.csv") w1 = (inr l2, w2) ->
  exec h (Script.load_data gt_path pred_path is_3d) w =
  let gt_files := sorted l1 in
  let pred_files := sorted l2 in
  let globs := [glob_event gt_dir l1; glob_event pred_dir l2] in
  if negb (length gt_files =? length pred_files)%nat then
    {| result := inl (ValueError (count_message (length gt_files) (length pred_files)));
       world := w2; trace := globs |}
  else if negb (files_match gt_files pred_files) then
    {| result := inl (ValueError names_message); world := w2; trace := globs |}
  else
    let o1 := exec h (tuple_of (reader is_3d) gt_files) w2 in
    match result o1 with
    | inl e => {| result := inl e; world := world o1; trace := globs ++ trace o1 |}
    | inr gts =>
        let o2 := exec h (tuple_of (reader is_3d) pred_files) (world o1) in
        {| result := (fun preds => (gts, preds)) <$> result o2;
           world := world o2;
           trace := globs ++ trace o1 ++ trace o2 |}
    end.
Proof.
  intros Hg Hp H1 H2. unfold Script.load_data. rewrite Hg, Hp. simpl.
  rewrite H1. simpl. rewrite H2. simpl.
  fold (files_match (sorted l1) (sorted l2)).
  destruct (negb (length (sorted l1) =? length (sorted l2))%nat); [done|].
  destruct (negb (files_match (sorted l1) (sorted l2))); [done|].
  change (prog_bind ?f ?p) with (p ≫= f).
  change (tuple_of _ (sorted l1)) with (tuple_of (reader is_3d) (sorted l1)).
  rewrite exec_bind.
  destruct (result (exec h (tuple_of (reader is_3d) (sorted l1)) w2)) as [e|gts];
    simpl; [done|].
  change (tuple_of _ (sorted l2)) with (tuple_of (reader is_3d) (sorted l2)).
  rewrite exec_bind.
  destruct (result (exec h (tuple_of (reader is_3d) (sorted l2)) _)) as [e|preds];
    simpl; [done|].
  by rewrite app_nil_r.
Qed.

(** ** [parse_args]: an option that is not supplied keeps its default *)

Section ParserFacts.
Import argparse.
Variable B : Builtins.
Variable actions : list Action.

Lemma classify_options arg_strings ts s a o e :
  classify B actions arg_strings = inr ts ->
  In (tok_O s (Some a) o e) ts ->
  In s (before_dashdash arg_strings)
  /\ parse_optional B actions s = OptionTuple (Some a) o e.
Proof.
  revert ts. induction arg_strings as [|x rest IH]; intros ts; simpl.
  - intros [= <-] [].
  - destruct (String.eqb x "--") eqn:Hx.
    + intros [= <-] [H|H]; [done|].
      apply in_map_iff in H as (? & ? & ?). done.
    + destruct (parse_optional B actions x) as [|a' o' e'|] eqn:Hpo; [| |done];
        destruct (classify B actions rest) as [err|ts'] eqn:Hrest; simpl; try done;
        intros [= <-] [H|H]; try done.
      * destruct (IH ts' eq_refl H). auto.
      * injection H as -> -> -> ->. auto.
      * destruct (IH ts' eq_refl H). auto.
Qed.

Lemma take_store_other a ty v ns ns' d :
  take_store B a ty v ns = inr ns' -> dest a <> d -> ns' !! d = ns !! d.
Proof.
  unfold take_store. destruct (get_values B ty v); [|done].
  intros [= <-] Hd. by rewrite lookup_insert_ne.
Qed.

Lemma consume_other d n : forall ts ns seen extras ns' seen' extras',
  (length ts <= n)%nat ->
  consume B actions ts ns seen extras = inr (ns', seen', extras') ->
  (forall s a o e, In (tok_O s (Some a) o e) ts -> dest a <> d) ->
  ns' !! d = ns !! d.
Proof.
  induction n as [|n IH]; intros ts ns seen extras ns' seen' extras' Hlen Hc Hd.
  - destruct ts; simpl in *; [|lia]. by injection Hc as <- _ _.
  - destruct ts as [|[s| |s [a|] o e] ts']; simpl in Hc, Hlen.
    + by injection Hc as <- _ _.
    + eapply IH; [| exact Hc |]; [lia|]. intros; eapply Hd; right; eauto.
    + eapply IH; [| exact Hc |]; [lia|]. intros; eapply Hd; right; eauto.
    + assert (Ha : dest a <> d) by (eapply Hd; left; eauto).
      destruct (action_kind a) as [ty req dflt|].
      * destruct e as [e|].
        -- destruct (take_store B a ty e ns) as [err|ns1] eqn:Hts; simpl in Hc; [done|].
           rewrite <- (take_store_other _ _ _ _ _ _ Hts Ha).
           eapply IH; [| exact Hc |]; [lia|]. intros; eapply Hd; right; eauto.
        -- destruct ts' as [|[v| |] ts'']; try done.
           destruct (take_store B a ty v ns) as [err|ns1] eqn:Hts; simpl in Hc; [done|].
           rewrite <- (take_store_other _ _ _ _ _ _ Hts Ha).
           eapply IH; [| exact Hc |]; [simpl in Hlen; lia|].
           intros; eapply Hd; right; right; eauto.
      * destruct e; [destruct (_ && _)|]; done.
    + eapply IH; [| exact Hc |]; [lia|]. intros; eapply Hd; right; eauto.
Qed.

Lemma parse_args_default d arg_strings args :
  supplies B actions d arg_strings = false ->
  parse_args B actions arg_strings = inr args ->
  args !! d = defaults actions !! d.
Proof.
  unfold supplies, parse_args. intros Hs.
  destruct (classify B actions arg_strings) as [err|ts] eqn:Hcl; simpl; [done|].
  destruct (consume B actions ts (defaults actions) [] []) as [err|[[ns seen] extras]]
    eqn:Hco; simpl; [done|].
  destruct (List.existsb _ actions); [done|]. destruct extras; [|done].
  intros [= <-]. eapply consume_other; [reflexivity | exact Hco |].
  intros s a o e Hin Hdest.
  destruct (classify_options _ _ _ _ _ _ Hcl Hin) as [Hpre Hpo].
  assert (Hn : names_dest B actions d s = true).
  { unfold names_dest. rewrite Hpo. by apply String.eqb_eq. }
  assert (List.existsb (names_dest B actions d) (before_dashdash arg_strings) = true).
  { apply existsb_exists. eauto. }
  congruence.
Qed.

End ParserFacts.

Lemma defaults_cutoff : argparse.defaults Script.parser !! "cutoff" = Some (PyFloat 3.0).
Proof. reflexivity. Qed.

Lemma defaults_outfile : argparse.defaults Script.parser !! "outfile" = Some PyNone.
Proof. reflexivity. Qed.

(** ** Runs of [main] *)

Lemma main_exec_load_error {W : Type} (h : Handler W) w B argv args gt_path pred_path e :
  argparse.parse_args B Script.parser argv = inr args ->
  args !! "ground_truth" = Some gt_path ->
  args !! "predictions" = Some pred_path ->
  result (exec h (Script.load_data gt_path pred_path false) w) = inl e ->
  exec h (Script.main B argv) w =
  {| result := inl e;
     world := world (exec h (Script.load_data gt_path pred_path false) w);
     trace := trace (exec h (Script.load_data gt_path pred_path false) w) |}.
Proof.
  intros Hparse Hgt Hpr He. unfold Script.main, Script.getattr.
  rewrite Hparse, Hgt, Hpr. simpl. change (prog_bind ?f ?p) with (p ≫= f).
  rewrite exec_bind. unfold Script.is_3d_default. by rewrite He.
Qed.

(** A run of [main] starts with the run of [load_data] on the two
    directory attributes, with the 3D flag at its default. *)
Lemma main_exec_load_prefix {W : Type} (h : Handler W) w B argv args gt_path pred_path :
  argparse.parse_args B Script.parser argv = inr args ->
  args !! "ground_truth" = Some gt_path ->
  args !! "predictions" = Some pred_path ->
  exists rest,
    trace (exec h (Script.main B argv) w)
    = trace (exec h (Script.load_data gt_path pred_path Script.is_3d_default) w) ++ rest.
Proof.
  intros Hparse Hgt Hpr. unfold Script.main, Script.getattr.
  rewrite Hparse, Hgt, Hpr. simpl. change (prog_bind ?f ?p) with (p ≫= f).
  rewrite exec_bind.
  destruct (result (exec h (Script.load_data gt_path pred_path Script.is_3d_default) w));
    simpl; [exists []; by rewrite app_nil_r | eauto].
Qed.


Lemma exec_world_unchanged {W A : Type} (P : Call -> Prop) (h : Handler W) (p : Prog A) w :
  (forall c w', P c -> (h c w').2 = w') ->
  all_calls P p -> world (exec h p w) = w.
Proof.
  intros Hh. induction p as [a|e|c k IH]; simpl; try done.
  intros [Hc Hk]. specialize (Hh c w Hc).
  destruct (h c w) as [[e|x] w']; simpl in *; subst; auto.
Qed.

Lemma fs_handler_glob (L : FS.Library) (w : gmap Path FS.node) dir pattern files :
  FS.glob_ w dir pattern = files ->
  FS.handler L (glob dir pattern) w = (inr files, w).
Proof. by intros <-. Qed.

Lemma fs_handler_read_only (L : FS.Library) (c : Call) (w : FS.fs) :
  read_only c -> (FS.handler L c w).2 = w.
Proof. by destruct c. Qed.

(** ** Which strings name the [--cutoff] option *)

Section CutoffTokens.
Import argparse.
Variable B : Builtins.

Lemma option_of_cutoff o a :
  In (o, a) (option_string_actions Script.parser) -> dest a = "cutoff" -> o = "--cutoff".
Proof.
  simpl. intros H Hd.
  repeat (destruct H as [H|H]; [injection H as <- <-; try discriminate Hd; try reflexivity|]).
  destruct H.
Qed.

Lemma lookup_option_In actions o a :
  lookup_option actions o = Some a -> In (o, a) (option_string_actions actions).
Proof.
  unfold lookup_option. destruct (List.find _ _) as [[o' a']|] eqn:Hf; [|done].
  intros [= <-]. apply find_some in Hf as [Hin Heq]. simpl in Heq.
  apply String.eqb_eq in Heq. by subst.
Qed.

Lemma startswith_trans s p q :
  str.startswith s p = true -> str.startswith p q = true -> str.startswith s q = true.
Proof.
  revert s p. induction q as [|c q IH]; intros [|d s] [|e p]; simpl; try done.
  rewrite !andb_true_iff. intros [H1 H2] [H3 H4]. split; [|eauto].
  apply Ascii.eqb_eq in H1, H3. apply Ascii.eqb_eq. congruence.
Qed.

Lemma split_1_startswith s c l r : str.split_1 s c = Some (l, r) -> str.startswith s l = true.
Proof.
  revert l r. induction s as [|a s IH]; intros l r; simpl; [done|].
  destruct (Ascii.eqb a c); [by intros [= <- _]|].
  destruct (str.split_1 s c) as [[l' r']|] eqn:Hs; [|done].
  intros [= <- _]. simpl. rewrite Ascii.eqb_refl. simpl. eauto.
Qed.

Lemma startswith_refl s : str.startswith s s = true.
Proof. induction s; simpl; [done|]. by rewrite Ascii.eqb_refl. Qed.

Lemma cutoff_prefix p :
  str.startswith "--cutoff" p = true -> str.startswith "--help" p = false ->
  str.startswith p "--c" = true.
Proof.
  destruct p as [|c1 [|c2 [|c3 p]]]; simpl;
    repeat match goal with
           | |- context [Ascii.eqb ?x ?y] =>
               destruct (Ascii.eqb_spec x y); subst; simpl
           end; try done.
  intros _ _. by destruct p.
Qed.

Lemma startswith_cons a p b s :
  str.startswith (String b s) (String a p) = Ascii.eqb a b && str.startswith s p.
Proof. reflexivity. Qed.

Lemma substring_0_length n s : (String.length (String.substring 0 n s) <= n)%nat.
Proof.
  revert s. induction n as [|n IH]; intros [|c s]; simpl; try lia.
  specialize (IH s). lia.
Qed.

Lemma prefix_of_cutoff_dashdash s :
  (2 <= String.length s)%nat ->
  str.startswith "--cutoff" s = true -> str.startswith s "--" = true.
Proof.
  destruct s as [|c1 [|c2 s]]; simpl String.length; try lia. intros _.
  rewrite !startswith_cons.
  destruct (Ascii.eqb_spec c1 "-") as [->|]; [|done].
  destruct (Ascii.eqb_spec c2 "-") as [->|]; [|done].
  intros _. by destruct s.
Qed.

Lemma flat_map_singleton {X Y : Type} (f : X -> list Y) (l : list X) (y : Y) :
  List.flat_map f l = [y] ->
  (exists x, In x l /\ In y (f x)) /\ (forall x z, In x l -> In z (f x) -> z = y).
Proof.
  intros H. split.
  - apply in_flat_map. rewrite H. by left.
  - intros x z Hx Hz.
    assert (Hin : In z (List.flat_map f l)) by (apply in_flat_map; eauto).
    rewrite H in Hin. by destruct Hin as [<-|[]].
Qed.

Lemma help_in_parser :
  In ("--help", {| option_strings := ["-h"; "--help"]; dest := "help"; action_kind := help |})
     (option_string_actions Script.parser).
Proof. simpl. tauto. Qed.

Lemma tuples_cutoff s a o e :
  (2 <= String.length s)%nat ->
  get_option_tuples Script.parser s = [(a, o, e)] ->
  dest a = "cutoff" ->
  str.startswith s "--c" = true.
Proof.
  intros Hlen Ht Hd. unfold get_option_tuples in Ht.
  destruct (str.startswith s "--") eqn:Hdd.
  - set (pe := match str.split_1 s "=" with
               | Some (p, e) => (p, Some e) | None => (s, None) end) in Ht.
    assert (Hpre : str.startswith s pe.1 = true).
    { subst pe. destruct (str.split_1 s "=") as [[p e']|] eqn:Hs; simpl.
      - by eapply split_1_startswith.
      - apply startswith_refl. }
    destruct pe as [p e']. simpl in Hpre.
    apply flat_map_singleton in Ht as [([o' a'] & Hin & Hy) Hall].
    destruct (str.startswith o' p) eqn:Hc; [|done].
    destruct Hy as [[= <- <- <-]|[]].
    assert (o' = "--cutoff") by (by eapply option_of_cutoff). subst o'.
    assert (Hh : str.startswith "--help" p = false).
    { destruct (str.startswith "--help" p) eqn:Hh; [|done].
      specialize (Hall _ ({| option_strings := ["-h"; "--help"]; dest := "help";
                              action_kind := help |}, "--help", e') help_in_parser).
      cbv beta iota zeta in Hall. rewrite Hh in Hall.
      specialize (Hall (or_introl eq_refl)). injection Hall as <-. done. }
    eapply startswith_trans; [exact Hpre|]. by apply cutoff_prefix.
  - exfalso.
    apply flat_map_singleton in Ht as [([o' a'] & Hin & Hy) _].
    assert (a' = a /\ o' = o).
    { destruct (String.eqb o' _); [by destruct Hy as [[= <- <- <-]|[]]|].
      destruct (str.startswith o' s); [by destruct Hy as [[= <- <- <-]|[]]|done]. }
    destruct H as [-> ->].
    assert (o = "--cutoff") by (by eapply option_of_cutoff). subst o.
    destruct (String.eqb_spec "--cutoff" (str.slice_to s 2)) as [Heq|_].
    { assert (Hl := substring_0_length (Z.to_nat 2) s).
      unfold str.slice_to in Heq. rewrite <- Heq in Hl. simpl in Hl. lia. }
    destruct (str.startswith "--cutoff" s) eqn:Hs; [|done].
    apply prefix_of_cutoff_dashdash in Hs; [congruence|done].
Qed.

Lemma names_cutoff_prefix s :
  names_dest B Script.parser "cutoff" s = true -> str.startswith s "--c" = true.
Proof.
  unfold names_dest, parse_optional.
  destruct (String.eqb_spec s "") as [->|Hne]; [done|].
  destruct (negb (str.startswith s "-")); [done|].
  destruct (lookup_option Script.parser s) as [a|] eqn:Hl.
  { intros Hd. apply String.eqb_eq in Hd. apply lookup_option_In in Hl.
    by rewrite (option_of_cutoff _ _ Hl Hd). }
  destruct (str.len s =? 1) eqn:Hlen; [done|].
  assert (Hlen2 : (2 <= String.length s)%nat).
  { unfold str.len in Hlen. destruct s as [|c [|c' s]]; simpl in *; try done; lia. }
  destruct (str.split_1 s "=") as [[o e]|] eqn:Hs.
  - destruct (lookup_option Script.parser o) as [a|] eqn:Hlo.
    + intros Hd. apply String.eqb_eq in Hd. apply lookup_option_In in Hlo.
      rewrite (option_of_cutoff _ _ Hlo Hd) in Hs.
      apply split_1_startswith in Hs.
      by apply (startswith_trans _ _ _ Hs).
    + destruct (get_option_tuples Script.parser s) as [|[[a o'] e'] [|]] eqn:Ht; try done.
      * by destruct (negative_number_like B s), (str.contains s " ").
      * intros Hd. apply String.eqb_eq in Hd. by eapply tuples_cutoff.
  - destruct (get_option_tuples Script.parser s) as [|[[a o'] e'] [|]] eqn:Ht; try done.
    + by destruct (negative_number_like B s), (str.contains s " ").
    + intros Hd. apply String.eqb_eq in Hd. by eapply tuples_cutoff.
Qed.

Lemma before_dashdash_In s arg_strings :
  In s (before_dashdash arg_strings) -> In s arg_strings.
Proof.
  induction arg_strings as [|x rest IH]; simpl; [done|].
  destruct (String.eqb x "--"); [done|]. intros [H|H]; auto.
Qed.

(** A command line none of whose strings starts with [--c] does not supply
    the cutoff. *)
Lemma no_cutoff_string arg_strings :
  (forall s, In s arg_strings -> str.startswith s "--c" = false) ->
  supplies B Script.parser "cutoff" arg_strings = false.
Proof.
  intros H. unfold supplies.
  destruct (List.existsb _ _) eqn:He; [|done].
  apply existsb_exists in He as (s & Hin & Hn).
  apply before_dashdash_In, H in Hin. apply names_cutoff_prefix in Hn. congruence.
Qed.
End CutoffTokens.

(** ** Listing the CSV files of a directory *)

Lemma substring_all s : String.substring 0 (String.length s) s = s.
Proof. induction s as [|c s IH]; simpl; [done|]. by rewrite IH. Qed.

Lemma string_eqb_length a b : String.eqb a b = true -> String.length a = String.length b.
Proof. intros H. apply String.eqb_eq in H. by subst. Qed.

Lemma endswith_cons c s suffix :
  str.endswith (String c s) suffix
  = String.eqb (String c s) suffix || str.endswith s suffix.
Proof.
  unfold str.endswith.
  set (n := String.length s). set (m := String.length suffix).
  change (String.length (String c s)) with (S n).
  destruct (String.eqb (String c s) suffix) eqn:He.
  - apply String.eqb_eq in He. subst suffix. subst m. simpl String.length.
    fold n. rewrite Nat.leb_refl, Nat.sub_diag. simpl.
    subst n. by rewrite Ascii.eqb_refl, substring_all, String.eqb_refl.
  - simpl orb.
    destruct (Nat.leb_spec m n) as [Hle|Hgt].
    + replace (m <=? S n)%nat with true by (symmetry; apply Nat.leb_le; lia).
      replace (S n - m)%nat with (S (n - m)) by lia. reflexivity.
    + destruct (Nat.leb_spec m (S n)) as [Hle'|]; [|done].
      assert (Hm : m = S n) by lia. simpl andb.
      rewrite Hm, Nat.sub_diag. subst n. by rewrite substring_all.
Qed.

Lemma fnmatch_literal_csv name : str.fnmatch ".csv" name = String.eqb name ".csv".
Proof.
  destruct name as [|c1 [|c2 [|c3 [|c4 [|c5 name]]]]]; simpl;
    repeat match goal with
           | |- context [Ascii.eqb ?x ?y] => destruct (Ascii.eqb_spec x y); subst; simpl
           end; try reflexivity; try congruence.
Qed.

Lemma fnmatch_csv name : str.fnmatch "*.csv" name = str.endswith name ".csv".
Proof.
  induction name as [|c name IH].
  - reflexivity.
  - rewrite endswith_cons, <- IH, <- fnmatch_literal_csv. reflexivity.
Qed.

Lemma scandir_spec (w : gmap Path FS.node) p name :
  name ∈ FS.scandir w p <-> is_Some (w !! child p name).
Proof.
  unfold FS.scandir, child. rewrite list_elem_of_omap. split.
  - intros ([q nd] & Hin & Hf). apply elem_of_map_to_list in Hin.
    destruct q as [|x q]; [done|].
    destruct (decide (List.removelast (x :: q) = p)) as [<-|]; [|done].
    injection Hf as <-.
    change (match q with [] => x | _ :: _ => List.last q "" end)
      with (List.last (x :: q) "").
    rewrite <- app_removelast_last by done. eauto.
  - intros [nd Hnd]. exists (p ++ [name], nd). split.
    + by apply elem_of_map_to_list.
    + destruct (p ++ [name]) as [|x q] eqn:Hq; [by destruct p|].
      rewrite <- Hq, removelast_last, last_last. by rewrite decide_True.
Qed.

(** The files [glob("*.csv")] lists in a directory are its entries whose
    name ends with [.csv]. *)
Lemma glob_csv_spec (w : gmap Path FS.node) dir f :
  f ∈ FS.glob_ w dir "*.csv"
  <-> FS.is_dir w dir = true
      /\ exists name, f = child dir name /\ is_Some (w !! f)
                      /\ str.endswith name ".csv" = true.
Proof.
  unfold FS.glob_. destruct (FS.is_dir w dir).
  - rewrite list_elem_of_fmap. split.
    + intros (name & -> & Hin). apply list_elem_of_In, filter_In in Hin as [Hin Hm].
      apply list_elem_of_In, scandir_spec in Hin. rewrite fnmatch_csv in Hm. eauto.
    + intros (_ & name & -> & Hin & Hm). exists name. split; [done|].
      apply list_elem_of_In, filter_In. rewrite fnmatch_csv. split; [|done].
      by apply list_elem_of_In, scandir_spec.
  - split; [by intros ?%elem_of_nil|]. by intros [? _].
Qed.

Lemma glob_csv_none (w : gmap Path FS.node) dir :
  (forall name, is_Some (w !! child dir name) -> str.endswith name ".csv" = false) ->
  FS.glob_ w dir "*.csv" = [].
Proof.
  intros H. apply elem_of_nil_inv. intros f Hf.
  apply glob_csv_spec in Hf as (_ & name & -> & Hin & Hm).
  apply H in Hin. congruence.
Qed.

(** On a file system without [.csv] entries in either directory, the loader
    returns two empty tuples and changes nothing. *)
Lemma empty_directories_on_fs (L : FS.Library) (w : gmap Path FS.node)
    gt_path pred_path is_3d gt_dir pred_dir :
  Script.Path_ gt_path = Ret gt_dir ->
  Script.Path_ pred_path = Ret pred_dir ->
  (forall name, is_Some (w !! child gt_dir name) -> str.endswith name ".csv" = false) ->
  (forall name, is_Some (w !! child pred_dir name) -> str.endswith name ".csv" = false) ->
  let o := exec (FS.handler L) (Script.load_data gt_path pred_path is_3d) w in
  result o = inr ([], []) /\ world o = w.
Proof.
  intros Hg Hp H1 H2. cbv zeta.
  rewrite (load_data_exec (FS.handler L) w _ _ is_3d gt_dir pred_dir [] w [] w Hg Hp);
    [by cbn | |]; by apply fs_handler_glob, glob_csv_none.
Qed.

(** ** The model at work *)

Example parse_minimal :
  attributes (argparse.parse_args Builtin.builtins Script.parser ["-gt"; "a"; "-p"; "b"])
  = inr (Some (PyStr "a"), Some (PyStr "b"), Some PyNone, Some (PyFloat 3.0)).
Proof. vm_compute. reflexivity. Qed.

Example parse_abbreviated :
  attributes (argparse.parse_args Builtin.builtins Script.parser
                ["--ground=a"; "-pb"; "--cut"; "0.5"; "-o"; "out/m.csv"])
  = inr (Some (PyStr "a"), Some (PyStr "b"), Some (PyPath ["out"; "m.csv"]),
         Some (PyFloat (1 # 2))).
Proof. vm_compute. reflexivity. Qed.

Example parse_help :
  argparse.parse_args Builtin.builtins Script.parser ["-gt"; "a"; "-h"]
  = inl (SystemExit 0).
Proof. vm_compute. reflexivity. Qed.

Example parse_missing_required :
  argparse.parse_args Builtin.builtins Script.parser ["-gt"; "a"] = inl (SystemExit 2).
Proof. vm_compute. reflexivity. Qed.

Example parse_ambiguous :
  argparse.parse_args Builtin.builtins Script.parser ["-gt"; "a"; "--p"; "b"; "--"]
  = inl (SystemExit 2).
Proof. vm_compute. reflexivity. Qed.

Example stems :
  (stem ["pred"; "img1_predict.csv"], stem [".csv"], stem ["a.b.csv"], stem ["/"])
  = ("img1_predict", ".csv", "a.b", "").
Proof. reflexivity. Qed.

Example sorted_by_code_point :
  sorted [["d"; "b.csv"]; ["d"; "a10.csv"]; ["d"; "B.csv"]; ["d"; "a1.csv"]]
  = [["d"; "B.csv"]; ["d"; "a1.csv"]; ["d"; "a10.csv"]; ["d"; "b.csv"]].
Proof. vm_compute. reflexivity. Qed.

(** A whole run: the two listings, the four reads in sorted order, the
    engine with the default cutoff, then the directory and the table. *)
Example run_with_outfile :
  calls (exec (FS.handler Example.library)
           (Script.main Builtin.builtins ["-gt"; "gt"; "-p"; "pred"; "-o"; "out/sub/m.csv"])
           Example.tree)
  = [glob ["gt"] "*.csv"; glob ["pred"] "*.csv";
     read_coords_csv ["gt"; "img1.csv"]; read_coords_csv ["gt"; "img2.csv"];
     read_coords_csv ["pred"; "img1_predict.csv"]; read_coords_csv ["pred"; "img2.csv"];
     points_matching_dataset
       [[[0; 0]; [10; 10]]; [[5; 5]]]%Q [[[1 # 2; 1 # 2]; [20; 20]]; [[5; 11 # 2]]]%Q
       (PyFloat 3.0) true;
     mkdir ["out"; "sub"] true true;
     to_csv {| df_columns := ["precision"; "recall"; "f1"; "tp"; "fp"; "fn"];
               df_index := [0];
               df_rows := [[Float (3 # 4); Float (3 # 4); Float (3 # 4);
                            Int 2; Int 1; Int 1]] |}
            ["out"; "sub"; "m.csv"] false].
Proof. vm_compute. reflexivity. Qed.

Example run_with_cutoff :
  List.filter (fun c => bool_decide (is_Some (cutoff_of c)))
    (calls (exec (FS.handler Example.library)
              (Script.main Builtin.builtins
                 ["-gt"; "gt"; "-p"; "pred"; "--cutoff"; "0.25"]) Example.tree))
  = [points_matching_dataset
       [[[0; 0]; [10; 10]]; [[5; 5]]]%Q [[[1 # 2; 1 # 2]; [20; 20]]; [[5; 11 # 2]]]%Q
       (PyFloat (1 # 4)) true].
Proof. vm_compute. reflexivity. Qed.

(** The loader itself has a 3D path: called with [is_3d=True] it goes
    through [read_coords_csv3d]. *)
Example load_data_3d_reader :
  calls (exec (FS.handler Example.library)
           (Script.load_data (PyStr "gt") (PyStr "pred") true) Example.tree)
  = [glob ["gt"] "*.csv"; glob ["pred"] "*.csv"; read_coords_csv3d ["gt"; "img1.csv"]].
Proof. vm_compute. reflexivity. Qed.

(** The concrete scenario of the specification: one match at distance
    [sqrt (1/2)], TP = FP = FN = 1, precision = recall = f1 = 1/2. *)
Example scenario_sample :
  exists m,
    Engine.evaluate_sample Engine.diagonal
      [[0; 0]; [10; 10]]%Q [[0.5; 0.5]; [20; 20]]%Q 3.0 = inr ([(0, 0)]%nat, m)
    /\ (Engine.tp m, Engine.fp m, Engine.fn m) = (1, 1, 1)
    /\ Engine.precision m == 1 # 2 /\ Engine.recall m == 1 # 2 /\ Engine.f1 m == 1 # 2
    /\ Engine.sqdist [0; 0]%Q [0.5; 0.5]%Q == 1 # 2.
Proof. eexists. split; [vm_compute; reflexivity|]. repeat split. Qed.

(** Both policies on two samples, one perfect and one with no match. *)
Example scenario_dataset :
  Engine.dataset_metrics Engine.diagonal
    [[[0; 0]]; [[0; 0]]]%Q [[[0; 0]]; [[9; 9]]]%Q 3.0 true
  = inr [("precision", Float (1 # 2)); ("recall", Float (1 # 2)); ("f1", Float (1 # 2));
         ("tp", Int 1); ("fp", Int 1); ("fn", Int 1)]
  /\ Engine.dataset_metrics Engine.diagonal
       [[[0; 0]]; [[0; 0]]]%Q [[[0; 0]]; [[9; 9]]]%Q 3.0 false
     = inr [("precision", Float (1 # 2)); ("recall", Float (1 # 2)); ("f1", Float (1 # 2));
            ("tp", Int 1); ("fp", Int 1); ("fn", Int 1)].
Proof. split; vm_compute; reflexivity. Qed.

(** ** The run of [main] after parsing *)

Lemma main_exec {W : Type} (h : Handler W) w B argv args gt_path pred_path cutoff outfile :
  argparse.parse_args B Script.parser argv = inr args ->
  args !! "ground_truth" = Some gt_path ->
  args !! "predictions" = Some pred_path ->
  args !! "cutoff" = Some cutoff ->
  args !! "outfile" = Some outfile ->
  exec h (Script.main B argv) w =
  let o1 := exec h (Script.load_data gt_path pred_path false) w in
  match result o1 with
  | inl e => {| result := inl e; world := world o1; trace := trace o1 |}
  | inr (gts, preds) =>
      let o2 := after_load h (world o1) gts preds cutoff outfile in
      {| result := result o2; world := world o2; trace := trace o1 ++ trace o2 |}
  end.
Proof.
  intros Hparse Hgt Hpr Hcut Hout. unfold Script.main, Script.getattr.
  rewrite Hparse, Hgt, Hpr. simpl. change (prog_bind ?f ?p) with (p ≫= f).
  rewrite exec_bind. unfold Script.is_3d_default. cbv zeta.
  destruct (result (exec h (Script.load_data gt_path pred_path false) w))
    as [e|[gts preds]]; [done|].
  rewrite Hcut. simpl. unfold after_load.
  destruct (h (points_matching_dataset gts preds cutoff true) _) as [[e|m] w2];
    simpl; [done|].
  rewrite Hout. destruct outfile as [|s|o|x|]; simpl; try done.
  destruct (h (mkdir (parent o) true true) w2) as [[e|[]] w3]; simpl; [done|].
  destruct (h (to_csv (mkDataFrame m [0]) o false) w3) as [[e|[]] w4]; simpl; done.
Qed.

(** ** What [parse_args] returns for the parser of the script *)

Section ParserInvariants.
Import argparse.
Variable B : Builtins.
Variable actions : list Action.

Lemma consume_invariant (Q : Action -> Prop) (P : Namespace -> list string -> Prop) n :
  (forall ns seen a ty req dflt v ns',
     Q a -> action_kind a = store ty req dflt -> P ns seen ->
     take_store B a ty v ns = inr ns' -> P ns' (dest a :: seen)) ->
  forall ts ns seen extras ns' seen' extras',
  (length ts <= n)%nat ->
  (forall s a o e, In (tok_O s (Some a) o e) ts -> Q a) ->
  P ns seen ->
  consume B actions ts ns seen extras = inr (ns', seen', extras') ->
  P ns' seen'.
Proof.
  intros Hstep.
  induction n as [|n IH]; intros ts ns seen extras ns' seen' extras' Hlen HQ HP Hc.
  - destruct ts; simpl in *; [|lia]. by injection Hc as <- <- _.
  - destruct ts as [|[s| |s [a|] o e] ts']; simpl in Hc, Hlen.
    + by injection Hc as <- <- _.
    + eapply IH; [| | exact HP | exact Hc]; [lia|]. intros; eapply HQ; right; eauto.
    + eapply IH; [| | exact HP | exact Hc]; [lia|]. intros; eapply HQ; right; eauto.
    + assert (Ha : Q a) by (eapply HQ; left; eauto).
      destruct (action_kind a) as [ty req dflt|] eqn:Hk.
      * destruct e as [e|].
        -- destruct (take_store B a ty e ns) as [err|ns1] eqn:Hts; simpl in Hc; [done|].
           eapply IH; [| | | exact Hc]; [lia| |eauto].
           intros; eapply HQ; right; eauto.
        -- destruct ts' as [|[v| |] ts'']; try done.
           destruct (take_store B a ty v ns) as [err|ns1] eqn:Hts; simpl in Hc; [done|].
           eapply IH; [| | | exact Hc]; [simpl in Hlen; lia| |eauto].
           intros; eapply HQ; right; right; eauto.
      * destruct e; [destruct (_ && _)|]; done.
    + eapply IH; [| | exact HP | exact Hc]; [lia|]. intros; eapply HQ; right; eauto.
Qed.

Lemma consume_error ts : forall ns seen extras e,
  consume B actions ts ns seen extras = inl e -> e = error \/ e = help_exit.
Proof.
  remember (length ts) as n eqn:Hn.
  assert (Hlen : (length ts <= n)%nat) by lia. clear Hn. revert ts Hlen.
  induction n as [|n IH]; intros ts Hlen ns seen extras err Hc.
  - destruct ts; simpl in *; [done|lia].
  - destruct ts as [|[s| |s [a|] o e] ts']; simpl in Hc, Hlen; try done.
    + eapply IH; [|exact Hc]; lia.
    + eapply IH; [|exact Hc]; lia.
    + destruct (action_kind a) as [ty req dflt|].
      * destruct e as [e|].
        -- unfold take_store in Hc. destruct (get_values B ty e); simpl in Hc.
           ++ eapply IH; [|exact Hc]; lia.
           ++ left. congruence.
        -- destruct ts' as [|[v| |] ts'']; try (left; congruence).
           unfold take_store in Hc. destruct (get_values B ty v); simpl in Hc.
           ++ eapply IH; [|exact Hc]; simpl in Hlen; lia.
           ++ left. congruence.
      * destruct e; [destruct (_ && _)|]; (left; congruence) || (right; congruence).
    + eapply IH; [|exact Hc]; lia.
Qed.

Lemma classify_error arg_strings e :
  classify B actions arg_strings = inl e -> e = error.
Proof.
  induction arg_strings as [|x rest IH]; simpl; [done|].
  destruct (String.eqb x "--"); [done|].
  destruct (parse_optional B actions x); [| |congruence];
    destruct (classify B actions rest); simpl; try done; intros [= <-]; auto.
Qed.

Lemma parse_args_error arg_strings e :
  parse_args B actions arg_strings = inl e -> e = error \/ e = help_exit.
Proof.
  unfold parse_args.
  destruct (classify B actions arg_strings) as [err|ts] eqn:Hcl; simpl.
  - intros [= <-]. left. by eapply classify_error.
  - destruct (consume B actions ts (defaults actions) [] []) as [err|[[ns seen] extras]]
      eqn:Hco; simpl.
    + intros [= <-]. by eapply consume_error.
    + destruct (List.existsb _ actions); [left; congruence|].
      destruct extras; [done|left; congruence].
Qed.

Lemma parse_args_inv arg_strings args :
  parse_args B actions arg_strings = inr args ->
  exists ts seen,
    classify B actions arg_strings = inr ts
    /\ consume B actions ts (defaults actions) [] [] = inr (args, seen, [])
    /\ forall a, In a actions -> is_required a = true -> In (dest a) seen.
Proof.
  unfold parse_args.
  destruct (classify B actions arg_strings) as [err|ts] eqn:Hcl; simpl; [done|].
  destruct (consume B actions ts (defaults actions) [] [])
    as [err|[[ns seen] extras]] eqn:Hco; simpl; [done|].
  destruct (List.existsb _ actions) eqn:Hreq; [done|].
  destruct extras; [|done]. intros [= <-]. exists ts, seen.
  repeat split; try done. intros a Ha Hr.
  destruct (List.existsb (String.eqb (dest a)) seen) eqn:Hs.
  - apply existsb_exists in Hs as (x & Hin & Hx). apply String.eqb_eq in Hx. by subst.
  - assert (List.existsb (fun a => is_required a
              && negb (List.existsb (String.eqb (dest a)) seen)) actions = true).
    { apply existsb_exists. exists a. by rewrite Hr, Hs. }
    congruence.
Qed.

End ParserInvariants.

Section ScriptParser.
Import argparse.
Variable B : Builtins.

Lemma option_string_actions_In actions o a :
  In (o, a) (option_string_actions actions) -> In a actions.
Proof.
  unfold option_string_actions. intros H.
  apply in_flat_map in H as (a' & Ha & H).
  apply in_map_iff in H as (o' & [= <- <-] & _). done.
Qed.

Lemma get_option_tuples_In actions s a o e :
  In (a, o, e) (get_option_tuples actions s) -> In a actions.
Proof.
  unfold get_option_tuples. destruct (str.startswith s "--").
  - destruct (match str.split_1 s "=" with Some (p, e0) => (p, Some e0) | None => (s, None) end)
      as [p e'].
    intros H. apply in_flat_map in H as ([o' a'] & Hin & H).
    destruct (str.startswith o' p); [|done]. destruct H as [[= <- <- <-]|[]].
    by eapply option_string_actions_In.
  - intros H. apply in_flat_map in H as ([o' a'] & Hin & H).
    destruct (String.eqb o' _).
    { destruct H as [[= <- <- <-]|[]]. by eapply option_string_actions_In. }
    destruct (str.startswith o' s); [|done].
    destruct H as [[= <- <- <-]|[]]. by eapply option_string_actions_In.
Qed.

Lemma parse_optional_In actions s a o e :
  parse_optional B actions s = OptionTuple (Some a) o e -> In a actions.
Proof.
  unfold parse_optional.
  destruct (String.eqb s ""); [done|].
  destruct (negb (str.startswith s "-")); [done|].
  destruct (lookup_option actions s) as [a'|] eqn:Hl.
  { intros [= <- <- <-]. eapply option_string_actions_In, lookup_option_In, Hl. }
  destruct (str.len s =? 1); [done|].
  assert (Htup : match get_option_tuples actions s with
                 | [] => if negative_number_like B s then Positional
                         else if str.contains s " " then Positional
                         else OptionTuple None s None
                 | [(a0, o0, e0)] => OptionTuple (Some a0) o0 e0
                 | _ :: _ :: _ => Ambiguous
                 end = OptionTuple (Some a) o e -> In a actions).
  { destruct (get_option_tuples actions s) as [|[[a0 o0] e0] [|]] eqn:Ht; try done.
    - by destruct (negative_number_like B s), (str.contains s " ").
    - intros [= <- <- <-]. eapply get_option_tuples_In. rewrite Ht. by left. }
  destruct (str.split_1 s "=") as [[o' e']|]; [|done].
  destruct (lookup_option actions o') as [a'|] eqn:Hlo; [|done].
  intros [= <- <- <-]. eapply option_string_actions_In, lookup_option_In, Hlo.
Qed.

Lemma get_values_typed ty v x :
  get_values B ty v = Some x ->
  match ty with
  | type_str => is_str_or_list x
  | type_Path => is_none_path_or_list x /\ x <> PyNone
  | type_float => is_float_or_list x
  end.
Proof.
  unfold get_values, get_value. destruct (String.eqb v "--").
  { intros [= <-]. by destruct ty. }
  destruct ty; simpl.
  - by intros [= <-].
  - by intros [= <-].
  - destruct (py_float B v); [|done]. by intros [= <-].
Qed.

Lemma get_values_not_None ty v x : get_values B ty v = Some x -> x <> PyNone.
Proof.
  intros H ->. apply get_values_typed in H.
  destruct ty; simpl in H; [done | by destruct H | done].
Qed.

Lemma consume_typed ts ns seen extras ns' seen' extras' :
  (forall s a o e, In (tok_O s (Some a) o e) ts -> In a Script.parser) ->
  typed_namespace ns ->
  consume B Script.parser ts ns seen extras = inr (ns', seen', extras') ->
  typed_namespace ns'.
Proof.
  intros HQ HP Hc.
  eapply (consume_invariant B Script.parser (fun a => In a Script.parser)
            (fun ns _ => typed_namespace ns) (length ts));
    [| reflexivity | exact HQ | exact HP | exact Hc].
  clear. intros ns seen a ty req dflt v ns' Ha Hk (Hg & Hp & Ho & Hcut) Hts.
  unfold take_store in Hts.
  destruct (get_values B ty v) as [x|] eqn:Hv; [|done]. injection Hts as <-.
  apply get_values_typed in Hv.
  simpl in Ha.
  destruct Ha as [<-|[<-|[<-|[<-|[<-|[]]]]]]; simpl in Hk; try done;
    injection Hk as <- _ _; simpl in *; unfold typed_namespace;
    rewrite ?lookup_insert_eq, ?lookup_insert_ne by done;
    repeat split; try done; eexists; (split; [reflexivity|]); tauto.
Qed.

Lemma consume_seen ts ns seen extras ns' seen' extras' :
  (forall d, In d seen -> exists v, ns !! d = Some v /\ v <> PyNone) ->
  consume B Script.parser ts ns seen extras = inr (ns', seen', extras') ->
  forall d, In d seen' -> exists v, ns' !! d = Some v /\ v <> PyNone.
Proof.
  intros HP Hc.
  eapply (consume_invariant B Script.parser (fun _ => True)
            (fun ns seen => forall d, In d seen -> exists v, ns !! d = Some v /\ v <> PyNone)
            (length ts)); [| reflexivity | done | exact HP | exact Hc].
  clear. intros ns seen a ty req dflt v ns' _ Hk HP Hts d Hd.
  unfold take_store in Hts.
  destruct (get_values B ty v) as [x|] eqn:Hv; [|done]. injection Hts as <-.
  destruct (decide (dest a = d)) as [<-|Hne].
  - rewrite lookup_insert_eq. eauto using get_values_not_None.
  - rewrite lookup_insert_ne by done. destruct Hd as [?|Hd]; [done|]. auto.
Qed.

Lemma consume_seen_supplied arg_strings ts ns seen extras ns' seen' extras' :
  classify B Script.parser arg_strings = inr ts ->
  (forall d, In d seen -> supplies B Script.parser d arg_strings = true) ->
  consume B Script.parser ts ns seen extras = inr (ns', seen', extras') ->
  forall d, In d seen' -> supplies B Script.parser d arg_strings = true.
Proof.
  intros Hcl HP Hc.
  eapply (consume_invariant B Script.parser
            (fun a => supplies B Script.parser (dest a) arg_strings = true)
            (fun _ seen => forall d, In d seen -> supplies B Script.parser d arg_strings = true)
            (length ts)); [| reflexivity | | exact HP | exact Hc].
  - clear. intros ns seen a ty req dflt v ns' Ha _ HP _ d [<-|Hd]; auto.
  - intros s a o e Hin.
    destruct (classify_options _ _ _ _ _ _ _ _ Hcl Hin) as [Hpre Hpo].
    unfold supplies. apply existsb_exists. exists s. split; [done|].
    unfold names_dest. rewrite Hpo. apply String.eqb_refl.
Qed.

Lemma defaults_typed : typed_namespace (defaults Script.parser).
Proof.
  repeat split; eexists; (split; [reflexivity|]); simpl; auto.
Qed.

Lemma parse_args_script argv args :
  parse_args B Script.parser argv = inr args ->
  exists ts seen,
    classify B Script.parser argv = inr ts
    /\ consume B Script.parser ts (defaults Script.parser) [] [] = inr (args, seen, [])
    /\ In "ground_truth" seen /\ In "predictions" seen.
Proof.
  intros Hp. apply parse_args_inv in Hp as (ts & seen & Hcl & Hco & Hreq).
  exists ts, seen. repeat split; try done.
  - apply (Hreq {| option_strings := ["-gt"; "--ground-truth"]; dest := "ground_truth";
                   action_kind := store type_str true PyNone |}); [simpl; tauto|done].
  - apply (Hreq {| option_strings := ["-p"; "--predictions"]; dest := "predictions";
                   action_kind := store type_str true PyNone |}); [simpl; tauto|done].
Qed.

Lemma parse_args_typed_namespace argv args :
  parse_args B Script.parser argv = inr args -> typed_namespace args.
Proof.
  intros Hp. apply parse_args_script in Hp as (ts & seen & Hcl & Hco & _).
  eapply consume_typed; [| apply defaults_typed | exact Hco].
  intros s a o e Hin.
  destruct (classify_options _ _ _ _ _ _ _ _ Hcl Hin) as [_ Hpo].
  by eapply parse_optional_In.
Qed.

Lemma parse_args_attributes argv args :
  parse_args B Script.parser argv = inr args ->
  exists gt_path pred_path outfile cutoff,
    args !! "ground_truth" = Some gt_path /\ args !! "predictions" = Some pred_path
    /\ args !! "outfile" = Some outfile /\ args !! "cutoff" = Some cutoff.
Proof.
  intros Hp.
  destruct (parse_args_typed_namespace _ _ Hp)
    as ((g & Hg & _) & (p & Hpr & _) & (o & Ho & _) & (c & Hc & _)).
  by exists g, p, o, c.
Qed.

End ScriptParser.

(** ** The engine call of [main] *)

Lemma load_data_no_engine_call {W : Type} (h : Handler W) w gt_path pred_path is_3d :
  List.filter (fun c => bool_decide (is_engine_call c))
    (calls (exec h (Script.load_data gt_path pred_path is_3d) w)) = [].
Proof.
  assert (H : Forall (fun c => ~ is_engine_call c)
                (calls (exec h (Script.load_data gt_path pred_path is_3d) w))).
  { apply all_calls_exec, load_data_calls.
    - intros p pat [x Hx]. done.
    - intros f [x Hx]. by destruct is_3d. }
  induction H as [|c l Hc Hl IH]; simpl; [done|].
  by rewrite bool_decide_eq_false_2.
Qed.

Lemma after_load_engine_calls {W : Type} (h : Handler W) w gts preds cutoff outfile :
  List.filter (fun c => bool_decide (is_engine_call c))
    (List.map ev_call (trace (after_load h w gts preds cutoff outfile)))
  = [points_matching_dataset gts preds cutoff true].
Proof.
  unfold after_load.
  destruct (h (points_matching_dataset gts preds cutoff true) w) as [[e|m] w2]; [done|].
  destruct outfile as [|s|o|x|]; try done.
  destruct (h (mkdir (parent o) true true) w2) as [[e|[]] w3]; done.
Qed.

(** * The claims *)

(** ** Aggregation policy (C1) *)

(** C1, as stated, fails: the caller cannot select the policy.  No command
    line, whatever the builtins and the replies of the environment, makes
    [main] call [points_matching_dataset] with [by_image=False] (the pooled
    policy). *)
Lemma pooled_policy_unreachable :
  ~ exists B argv p1 p2 cutoff,
      may_call (Script.main B argv) (points_matching_dataset p1 p2 cutoff false).
Proof.
  intros (B & argv & p1 & p2 & cutoff & Hcall).
  assert (H : all_calls (fun c => by_image_of c <> Some false) (Script.main B argv)).
  { apply main_calls; try done; intros; split; done. }
  rewrite all_calls_may_call in H. by apply (H _ Hcall).
Qed.

(** C1, as amended: the entry point fixes the policy.  Every call of
    [points_matching_dataset] that [main] can issue, for every command line,
    passes [by_image=True]; so does every such call in every run. *)
Theorem main_always_by_image B argv :
  all_calls (fun c => forall b, by_image_of c = Some b -> b = true) (Script.main B argv)
  /\ forall (W : Type) (h : Handler W) (w : W),
       Forall (fun c => forall b, by_image_of c = Some b -> b = true)
              (calls (exec h (Script.main B argv) w)).
Proof.
  assert (H : all_calls (fun c => forall b, by_image_of c = Some b -> b = true)
                (Script.main B argv)).
  { apply main_calls; [done | done | | by intros; split].
    intros args cutoff gts preds _ _ b [= <-]. done. }
  split; [done|]. intros W h w. by apply all_calls_exec.
Qed.

(** ** The default cutoff (C7) *)

(** C7: when no command-line string names the [--cutoff] option, the
    namespace holds the default [3.0], no call of the engine can carry
    another cutoff, and the matching is run with it: in every run in
    which [load_data] returns, the engine is called, once, on the loaded
    data with the cutoff [3.0]. *)
Theorem cutoff_defaults_to_3 B argv :
  argparse.supplies B Script.parser "cutoff" argv = false ->
  (forall args, argparse.parse_args B Script.parser argv = inr args ->
                args !! "cutoff" = Some (PyFloat 3.0))
  /\ all_calls (fun c => forall x, cutoff_of c = Some x -> x = PyFloat 3.0)
       (Script.main B argv)
  /\ forall (W : Type) (h : Handler W) (w : W) args gt_path pred_path gts preds,
       argparse.parse_args B Script.parser argv = inr args ->
       args !! "ground_truth" = Some gt_path ->
       args !! "predictions" = Some pred_path ->
       result (exec h (Script.load_data gt_path pred_path false) w) = inr (gts, preds) ->
       List.filter (fun c => bool_decide (is_engine_call c))
         (calls (exec h (Script.main B argv) w))
       = [points_matching_dataset gts preds (PyFloat 3.0) true].
Proof.
  intros Hs.
  assert (Hd : forall args, argparse.parse_args B Script.parser argv = inr args ->
                            args !! "cutoff" = Some (PyFloat 3.0)).
  { intros args Hp. rewrite (parse_args_default _ _ _ _ _ Hs Hp). apply defaults_cutoff. }
  split; [done|]. split.
  - apply main_calls; [done | done | | by intros; split].
    intros args cutoff gts preds Hp Hc x [= <-]. apply Hd in Hp. congruence.
  - intros W h w args gt_path pred_path gts preds Hp Hgt Hpr Hload.
    destruct (parse_args_attributes _ _ _ Hp) as (_ & _ & outfile & _ & _ & _ & Hout & _).
    rewrite (main_exec h w _ _ _ _ _ _ _ Hp Hgt Hpr (Hd _ Hp) Hout). cbv zeta.
    pose proof (load_data_no_engine_call h w gt_path pred_path false) as Hl.
    rewrite Hload. unfold calls in *. cbn [trace].
    rewrite map_app, List.filter_app, Hl.
    apply after_load_engine_calls.
Qed.

Lemma cutoff_defaults_to_3_witness :
  argparse.supplies Builtin.builtins Script.parser "cutoff" ["-gt"; "gt"; "-p"; "pred"] = false
  /\ List.filter (fun c => bool_decide (is_engine_call c))
       (calls (exec (FS.handler Example.library)
                 (Script.main Builtin.builtins ["-gt"; "gt"; "-p"; "pred"]) Example.tree))
     = [points_matching_dataset
          [[[0; 0]; [10; 10]]; [[5; 5]]]%Q [[[1 # 2; 1 # 2]; [20; 20]]; [[5; 11 # 2]]]%Q
          (PyFloat 3.0) true].
Proof.
  split; [reflexivity|].
  apply (proj2 (proj2 (cutoff_defaults_to_3 Builtin.builtins ["-gt"; "gt"; "-p"; "pred"]
                         eq_refl))
           _ (FS.handler Example.library) Example.tree _ (PyStr "gt") (PyStr "pred")
           _ _ eq_refl eq_refl eq_refl).
  vm_compute. reflexivity.
Defined.

(** ** The reader used from the command line (C8) *)

(** C8: [main] calls [load_data] with two arguments, so the flag keeps its
    default [False]: every run of [main] begins with the run of the loader
    with [is_3d = False].  Whatever the command line, no run of [main] calls
    the 3D reader, so every read goes through [read_coords_csv]. *)
Theorem main_never_reads_3d B argv :
  Script.is_3d_default = false
  /\ (forall (W : Type) (h : Handler W) (w : W) args gt_path pred_path,
        argparse.parse_args B Script.parser argv = inr args ->
        args !! "ground_truth" = Some gt_path ->
        args !! "predictions" = Some pred_path ->
        exists rest,
          trace (exec h (Script.main B argv) w)
          = trace (exec h (Script.load_data gt_path pred_path false) w) ++ rest)
  /\ all_calls (fun c => ~ is_3d_read c) (Script.main B argv)
  /\ forall (W : Type) (h : Handler W) (w : W),
       Forall (fun c => ~ is_3d_read c) (calls (exec h (Script.main B argv) w)).
Proof.
  assert (H : all_calls (fun c => ~ is_3d_read c) (Script.main B argv)).
  { apply main_calls; try (intros; simpl; tauto). }
  split; [done|]. split; [|split; [done|]].
  - intros W h w args gt_path pred_path. apply main_exec_load_prefix.
  - intros W h w. by apply all_calls_exec.
Qed.

(** ** No output file, no write (C9) *)



(** The file system changes only when an output path was supplied. *)
Lemma fs_changes_only_with_outfile (B : Builtins) (argv : list string)
    (L : FS.Library) (w : gmap Path FS.node) :
  world (exec (FS.handler L) (Script.main B argv) w) <> w ->
  exists args outfile,
    argparse.parse_args B Script.parser argv = inr args
    /\ args !! "outfile" = Some (PyPath outfile).
Proof.
  intros Hw.
  destruct (argparse.parse_args B Script.parser argv) as [e|args] eqn:Hparse.
  { exfalso. apply Hw. unfold Script.main. by rewrite Hparse. }
  destruct (args !! "outfile") as [[| |outfile| |]|] eqn:Hout; eauto; exfalso; apply Hw;
    (apply (exec_world_unchanged read_only);
     [intros c w'; apply fs_handler_read_only
     |apply main_calls; [done | done | done |];
      intros args' outfile' df Hp Ho; congruence]).
Qed.

(** ** The loader (C2, C3, C6, C10) *)

Lemma files_match_Forall2 gt_files pred_files :
  length gt_files = length pred_files ->
  files_match gt_files pred_files = true <-> Forall2 stem_is_prefix gt_files pred_files.
Proof.
  unfold files_match.
  revert pred_files. induction gt_files as [|g gs IH]; intros [|p ps]; simpl; try done.
  intros [= Hlen].
  rewrite andb_true_iff, (IH ps Hlen). split.
  - intros [H1 H2]. by constructor.
  - intros H. by inversion H.
Qed.

Lemma reader_succeeds {W : Type} (h : Handler W) is_3d f w :
  succeeds h (reader_call is_3d f) w ->
  exists a, result (exec h (reader is_3d f) w) = inr a.
Proof.
  unfold succeeds, reader_call, reader.
  destruct is_3d; simpl; destruct (h _ w) as [[e|a] w']; simpl; try done; eauto.
Qed.

Lemma tuple_of_readers_total {W : Type} (h : Handler W) is_3d fs w :
  (forall f w', succeeds h (reader_call is_3d f) w') ->
  exists arrays, result (exec h (tuple_of (reader is_3d) fs) w) = inr arrays.
Proof.
  intros Hs. revert w. induction fs as [|f fs IH]; intros w; simpl; [eauto|].
  rewrite exec_bind.
  destruct (reader_succeeds h is_3d f w (Hs f w)) as [a ->]. simpl.
  rewrite exec_bind.
  destruct (IH (world (exec h (reader is_3d f) w))) as [ys ->]. simpl. eauto.
Qed.

(** C10: when both directories list no CSV file, the loader returns two
    empty tuples after the two listings, without raising. *)
Theorem empty_directories_load {W : Type} (h : Handler W) w gt_path pred_path is_3d
    gt_dir pred_dir w1 w2 :
  Script.Path_ gt_path = Ret gt_dir ->
  Script.Path_ pred_path = Ret pred_dir ->
  h (glob gt_dir "*.csv") w = (inr [], w1) ->
  h (glob pred_dir "*.csv") w1 = (inr [], w2) ->
  let o := exec h (Script.load_data gt_path pred_path is_3d) w in
  result o = inr ([], [])
  /\ trace o = [glob_event gt_dir []; glob_event pred_dir []]
  /\ world o = w2.
Proof.
  intros Hg Hp H1 H2. simpl.
  rewrite (load_data_exec h w _ _ is_3d _ _ _ _ _ _ Hg Hp H1 H2). by cbn.
Qed.

Lemma empty_directories_load_witness :
  result (exec (FS.handler Example.library)
            (Script.load_data (PyStr "gt") (PyStr "pred") false) Example.bare_tree)
  = inr ([], []).
Proof.
  refine (proj1 (empty_directories_load (FS.handler Example.library) Example.bare_tree
                   (PyStr "gt") (PyStr "pred") false ["gt"] ["pred"]
                   Example.bare_tree Example.bare_tree eq_refl eq_refl _ _));
    apply fs_handler_glob; vm_compute; reflexivity.
Defined.

(** C3: when the two listings differ in length, the loader raises
    [ValueError] right after them: the trace holds the two listings and no
    read.  A run of [main] on such directories ends the same way, with no
    call of the engine and no write. *)
Theorem count_mismatch_aborts {W : Type} (h : Handler W) w gt_path pred_path is_3d
    gt_dir pred_dir l1 w1 l2 w2 :
  Script.Path_ gt_path = Ret gt_dir ->
  Script.Path_ pred_path = Ret pred_dir ->
  h (glob gt_dir "*.csv") w = (inr l1, w1) ->
  h (glob pred_dir "*.csv") w1 = (inr l2, w2) ->
  length l1 <> length l2 ->
  let aborted (A : Type) (o : Outcome W A) :=
    result o = inl (ValueError (count_message (length l1) (length l2)))
    /\ trace o = [glob_event gt_dir l1; glob_event pred_dir l2]
    /\ world o = w2 in
  aborted _ (exec h (Script.load_data gt_path pred_path is_3d) w)
  /\ forall B argv args,
       argparse.parse_args B Script.parser argv = inr args ->
       args !! "ground_truth" = Some gt_path ->
       args !! "predictions" = Some pred_path ->
       aborted _ (exec h (Script.main B argv) w).
Proof.
  intros Hg Hp H1 H2 Hlen. cbv zeta.
  assert (Hload : forall is_3d,
    exec h (Script.load_data gt_path pred_path is_3d) w =
    {| result := inl (ValueError (count_message (length l1) (length l2)));
       world := w2; trace := [glob_event gt_dir l1; glob_event pred_dir l2] |}).
  { intros b. rewrite (load_data_exec h w _ _ b _ _ _ _ _ _ Hg Hp H1 H2). cbv zeta.
    rewrite !sorted_length.
    destruct (Nat.eqb_spec (length l1) (length l2)); [done|]. done. }
  split.
  - by rewrite Hload.
  - intros B argv args Hparse Hgt Hpr.
    rewrite (main_exec_load_error h w B argv args gt_path pred_path _ Hparse Hgt Hpr
               (f_equal result (Hload false))).
    by rewrite Hload.
Qed.

Lemma count_mismatch_aborts_witness :
  calls (exec (FS.handler Example.library)
           (Script.main Builtin.builtins ["-gt"; "gt"; "-p"; "pred"]) Example.uneven_tree)
  = [glob ["gt"] "*.csv"; glob ["pred"] "*.csv"].
Proof.
  assert (Hparse : exists args,
    argparse.parse_args Builtin.builtins Script.parser ["-gt"; "gt"; "-p"; "pred"] = inr args
    /\ args !! "ground_truth" = Some (PyStr "gt")
    /\ args !! "predictions" = Some (PyStr "pred")).
  { eexists. split; [reflexivity|]. split; reflexivity. }
  destruct Hparse as (args & Hparse & Hgt & Hpr).
  unfold calls.
  rewrite (proj1 (proj2 (proj2 (count_mismatch_aborts (FS.handler Example.library)
     Example.uneven_tree (PyStr "gt") (PyStr "pred") false ["gt"] ["pred"]
     [["gt"; "b.csv"]; ["gt"; "a.csv"]] Example.uneven_tree
     [["pred"; "a.csv"]] Example.uneven_tree
     eq_refl eq_refl
     ltac:(apply fs_handler_glob; vm_compute; reflexivity)
     ltac:(apply fs_handler_glob; vm_compute; reflexivity)
     ltac:(simpl; lia))
     Builtin.builtins ["-gt"; "gt"; "-p"; "pred"] args Hparse Hgt Hpr))).
  reflexivity.
Defined.

(** C6: when the two listings pass the checks, the files are taken in
    sorted order; whenever the loader returns, the two tuples have the same
    length, and the trace shows that the [i]-th ground-truth array is the
    reply to reading the [i]-th sorted ground-truth file, and likewise for
    the predictions, which are read after all the ground truths.  The
    loader does return when the reader answers every file. *)
Theorem load_data_aligned {W : Type} (h : Handler W) w gt_path pred_path is_3d
    gt_dir pred_dir l1 w1 l2 w2 :
  Script.Path_ gt_path = Ret gt_dir ->
  Script.Path_ pred_path = Ret pred_dir ->
  h (glob gt_dir "*.csv") w = (inr l1, w1) ->
  h (glob pred_dir "*.csv") w1 = (inr l2, w2) ->
  length l1 = length l2 ->
  files_match (sorted l1) (sorted l2) = true ->
  let o := exec h (Script.load_data gt_path pred_path is_3d) w in
  let gt_files := sorted l1 in
  let pred_files := sorted l2 in
  (Sorted pathlib.le gt_files /\ gt_files ≡ₚ l1)
  /\ (Sorted pathlib.le pred_files /\ pred_files ≡ₚ l2)
  /\ (forall gts preds,
        result o = inr (gts, preds) ->
        length gts = length preds
        /\ length gts = length gt_files
        /\ trace o
           = [glob_event gt_dir l1; glob_event pred_dir l2]
             ++ List.map (fun '(f, a) => read_event is_3d f a) (List.combine gt_files gts)
             ++ List.map (fun '(f, a) => read_event is_3d f a) (List.combine pred_files preds))
  /\ ((forall f w', succeeds h (reader_call is_3d f) w') ->
      exists gts preds, result o = inr (gts, preds)).
Proof.
  intros Hg Hp H1 H2 Hlen Hmatch. cbv zeta.
  split; [split; [apply sorted_Sorted | apply sorted_Permutation]|].
  split; [split; [apply sorted_Sorted | apply sorted_Permutation]|].
  rewrite (load_data_exec h w _ _ is_3d _ _ _ _ _ _ Hg Hp H1 H2). cbv zeta.
  rewrite !sorted_length, Hlen, Nat.eqb_refl, Hmatch. simpl negb. cbv iota.
  split.
  - intros gts preds.
    destruct (result (exec h (tuple_of (reader is_3d) (sorted l1)) w2))
      as [e|gts'] eqn:Hgts; [done|]. simpl.
    destruct (result (exec h (tuple_of (reader is_3d) (sorted l2)) _))
      as [e|preds'] eqn:Hpreds; [done|]. simpl.
    intros [= <- <-].
    apply exec_tuple_of_readers in Hgts as [Hl1 ->].
    apply exec_tuple_of_readers in Hpreds as [Hl2 ->].
    rewrite Hl1, Hl2, !sorted_length. auto.
  - intros Hs.
    destruct (tuple_of_readers_total h is_3d (sorted l1) w2 Hs) as [gts ->]. simpl.
    destruct (tuple_of_readers_total h is_3d (sorted l2)
                (world (exec h (tuple_of (reader is_3d) (sorted l1)) w2)) Hs)
      as [preds ->].
    simpl. eauto.
Qed.

Lemma load_data_aligned_witness :
  trace (exec (FS.handler Example.library)
           (Script.load_data (PyStr "gt") (PyStr "pred") false) Example.tree)
  = [glob_event ["gt"] [["gt"; "img2.csv"]; ["gt"; "img1.csv"]];
     glob_event ["pred"] [["pred"; "img1_predict.csv"]; ["pred"; "img2.csv"]]]
    ++ List.map (fun '(f, a) => read_event false f a)
         (List.combine (sorted [["gt"; "img2.csv"]; ["gt"; "img1.csv"]])
            [[[0; 0]; [10; 10]]; [[5; 5]]]%Q)
    ++ List.map (fun '(f, a) => read_event false f a)
         (List.combine (sorted [["pred"; "img1_predict.csv"]; ["pred"; "img2.csv"]])
            [[[1 # 2; 1 # 2]; [20; 20]]; [[5; 11 # 2]]]%Q).
Proof.
  refine (proj2 (proj2 (proj1 (proj2 (proj2 (load_data_aligned
     (FS.handler Example.library) Example.tree
     (PyStr "gt") (PyStr "pred") false ["gt"] ["pred"]
     [["gt"; "img2.csv"]; ["gt"; "img1.csv"]] Example.tree
     [["pred"; "img1_predict.csv"]; ["pred"; "img2.csv"]] Example.tree
     eq_refl eq_refl _ _ eq_refl _)))
     [[[0; 0]; [10; 10]]; [[5; 5]]]%Q [[[1 # 2; 1 # 2]; [20; 20]]; [[5; 11 # 2]]]%Q _)));
    [apply fs_handler_glob; vm_compute; reflexivity
    |apply fs_handler_glob; vm_compute; reflexivity
    |vm_compute; reflexivity
    |vm_compute; reflexivity].
Defined.

(** C2, as stated, fails: a ground truth [img10.csv] and a prediction
    [img1_predict_v2.csv] are accepted and read, although the prediction
    stem with a [_predict] suffix stripped is not the ground-truth stem. *)
Lemma accepted_with_different_stems :
  let o := exec (FS.handler Example.library)
             (Script.load_data (PyStr "gt") (PyStr "pred") false) Example.prefix_tree in
  result o = inr ([[[0; 0]]], [[[0; 0]]])%Q
  /\ calls o = [glob ["gt"] "*.csv"; glob ["pred"] "*.csv";
                read_coords_csv ["gt"; "img10.csv"];
                read_coords_csv ["pred"; "img1_predict_v2.csv"]]
  /\ ~ stripped_stem_equal ["gt"; "img10.csv"] ["pred"; "img1_predict_v2.csv"].
Proof.
  split; [vm_compute; reflexivity|].
  split; [vm_compute; reflexivity|].
  vm_compute. discriminate.
Qed.

(** C2, as amended: the loader checks a prefix.  Whenever it returns, each
    ground-truth stem starts with the stem of the prediction at the same
    position cut at its first [_predict]; and when the listings are equally
    long and some aligned pair fails that test, the loader raises
    [ValueError] right after the two listings, before any read. *)
Theorem load_data_checks_prefix {W : Type} (h : Handler W) w gt_path pred_path is_3d
    gt_dir pred_dir l1 w1 l2 w2 :
  Script.Path_ gt_path = Ret gt_dir ->
  Script.Path_ pred_path = Ret pred_dir ->
  h (glob gt_dir "*.csv") w = (inr l1, w1) ->
  h (glob pred_dir "*.csv") w1 = (inr l2, w2) ->
  let o := exec h (Script.load_data gt_path pred_path is_3d) w in
  (forall gts preds,
     result o = inr (gts, preds) -> Forall2 stem_is_prefix (sorted l1) (sorted l2))
  /\ (length l1 = length l2 ->
      ~ Forall2 stem_is_prefix (sorted l1) (sorted l2) ->
      result o = inl (ValueError names_message)
      /\ trace o = [glob_event gt_dir l1; glob_event pred_dir l2]
      /\ world o = w2).
Proof.
  intros Hg Hp H1 H2. cbv zeta.
  rewrite (load_data_exec h w _ _ is_3d _ _ _ _ _ _ Hg Hp H1 H2). cbv zeta.
  rewrite !sorted_length.
  destruct (Nat.eqb_spec (length l1) (length l2)) as [Hlen|Hlen]; simpl negb; cbv iota.
  - assert (Hiff := files_match_Forall2 (sorted l1) (sorted l2)
                      ltac:(by rewrite !sorted_length)).
    destruct (files_match (sorted l1) (sorted l2)); simpl negb; cbv iota.
    + split; [intros; by apply Hiff|]. intros _ Hn. destruct Hn. by apply Hiff.
    + split; [done|]. done.
  - split; [done|]. done.
Qed.

Lemma load_data_checks_prefix_witness :
  Forall2 stem_is_prefix
    (sorted [["gt"; "img2.csv"]; ["gt"; "img1.csv"]])
    (sorted [["pred"; "img1_predict.csv"]; ["pred"; "img2.csv"]]).
Proof.
  refine (proj1 (load_data_checks_prefix (FS.handler Example.library) Example.tree
     (PyStr "gt") (PyStr "pred") false ["gt"] ["pred"]
     [["gt"; "img2.csv"]; ["gt"; "img1.csv"]] Example.tree
     [["pred"; "img1_predict.csv"]; ["pred"; "img2.csv"]] Example.tree
     eq_refl eq_refl _ _)
     [[[0; 0]; [10; 10]]; [[5; 5]]]%Q [[[1 # 2; 1 # 2]; [20; 20]]; [[5; 11 # 2]]]%Q _);
    [apply fs_handler_glob; vm_compute; reflexivity
    |apply fs_handler_glob; vm_compute; reflexivity
    |vm_compute; reflexivity].
Defined.

(** ** The engine, as the specification describes it (C4) *)

Section EngineFacts.
Import Engine.

Lemma Qltb_lt x y : Qltb x y = true -> (x < y)%Q.
Proof.
  unfold Qltb. rewrite negb_true_iff. intros H.
  apply Qnot_le_lt. intros Hle. apply Qle_bool_iff in Hle. congruence.
Qed.

Lemma sqdist_nonneg p q : (0 <= sqdist p q)%Q.
Proof.
  unfold sqdist. generalize (List.combine p q). intros l.
  induction l as [|[a b] l IH]; simpl; [apply Qle_refl|].
  apply (Qle_trans _ (0 + 0)%Q); [by compute|].
  apply Qplus_le_compat; [|done].
  unfold Qle. simpl. rewrite Z.mul_1_r. apply Z.square_nonneg.
Qed.

(** [below] decides the comparison of the distance with the cutoff. *)
Lemma below_lt d c :
  (0 <= radicand d)%Q -> below d c = true -> (value d < Q2R c)%R.
Proof.
  unfold below, value. intros Hd. rewrite andb_true_iff. intros [Hc Hlt].
  apply Qltb_lt in Hc, Hlt. apply Qlt_Rlt in Hc, Hlt. apply Qle_Rle in Hd.
  rewrite Q2R_mult in Hlt. rewrite RMicromega.Q2R_0 in Hc, Hd.
  rewrite <- (sqrt_square (Q2R c)) by lra.
  apply sqrt_lt_1_alt. lra.
Qed.

Lemma entry_distances gt pred D i j d :
  distances gt pred = inr D ->
  entry D i j = Some d ->
  exists g p, gt !! i = Some g /\ pred !! j = Some p /\ d = Sqrt (sqdist g p).
Proof.
  unfold distances, entry. destruct (_ || _); [|done]. intros [= <-].
  rewrite !list_lookup_fmap.
  destruct (gt !! i) as [g|]; simpl; [|done].
  rewrite list_lookup_fmap.
  destruct (pred !! j) as [p|]; simpl; [|done].
  intros [= <-]. eauto.
Qed.

Lemma matcher_below solve D cutoff i j :
  In (i, j) (matcher solve D cutoff) ->
  exists d, entry D i j = Some d /\ below d cutoff = true.
Proof.
  unfold matcher. destruct (Qle_bool cutoff 0); [done|].
  destruct (_ || _); [done|].
  rewrite filter_In. intros [_ H].
  destruct (entry D i j) as [d|]; [eauto|done].
Qed.

(** C4: for a sample the engine processes, the counts add up to the sizes
    of the two sets, TP is the number of matched pairs, and every matched
    pair joins a ground-truth point and a predicted point whose Euclidean
    distance is strictly below the cutoff. *)
Theorem sample_counts_and_distances solve gt pred cutoff matching m :
  evaluate_sample solve gt pred cutoff = inr (matching, m) ->
  tp m + fn m = Z.of_nat (length gt)
  /\ tp m + fp m = Z.of_nat (length pred)
  /\ tp m = Z.of_nat (length matching)
  /\ forall i j, In (i, j) matching ->
       exists g p, gt !! i = Some g /\ pred !! j = Some p
                   /\ (sqrt (Q2R (sqdist g p)) < Q2R cutoff)%R.
Proof.
  unfold evaluate_sample.
  destruct (distances gt pred) as [e|D] eqn:HD; [done|].
  intros [= <- <-]. simpl. repeat split; try lia.
  intros i j Hin.
  destruct (matcher_below _ _ _ _ _ Hin) as (d & Hd & Hb).
  destruct (entry_distances _ _ _ _ _ _ HD Hd) as (g & p & Hg & Hp & ->).
  exists g, p. repeat split; try done.
  apply (below_lt (Sqrt (sqdist g p))); [apply sqdist_nonneg | done].
Qed.

Lemma sample_counts_and_distances_witness :
  exists g p, [[0; 0]; [10; 10]]%Q !! 0%nat = Some g
              /\ [[0.5; 0.5]; [20; 20]]%Q !! 0%nat = Some p
              /\ (sqrt (Q2R (sqdist g p)) < Q2R 3.0)%R.
Proof.
  refine (proj2 (proj2 (proj2 (sample_counts_and_distances diagonal
    [[0; 0]; [10; 10]]%Q [[0.5; 0.5]; [20; 20]]%Q 3.0 [(0, 0)]%nat
    {| tp := 1; fn := 1; fp := 1; precision := 1 / 2; recall := 1 / 2;
       f1 := 2 * (1 / 2) * (1 / 2) / (1 / 2 + 1 / 2) |} _))) 0%nat 0%nat _).
  - vm_compute. reflexivity.
  - left. reflexivity.
Defined.

(* The metric values of the degenerate samples are not stated here: for a
   sample without ground truth and with predictions, the recall formula of
   section 4.3 and the example of section 8 give different values. *)

Lemma List_filter_sublist {A : Type} (f : A -> bool) (l : list A) :
  sublist (List.filter f l) l.
Proof.
  induction l as [|x l IH]; simpl; [constructor|].
  destruct (f x); by constructor.
Qed.

(** With a solver that returns assignments, the matching is injective on
    both sides and within the index ranges, so FN and FP are counts. *)
Lemma matcher_is_assignment solve D cutoff :
  is_assignment (solve (cost_matrix D cutoff)) ->
  is_assignment (matcher solve D cutoff).
Proof.
  unfold matcher, is_assignment.
  destruct (Qle_bool cutoff 0); [intros; split; apply NoDup_nil_2|].
  destruct (_ || _); [intros; split; apply NoDup_nil_2|].
  generalize (solve (cost_matrix D cutoff)). intros l [H1 H2].
  split; [apply (sublist_NoDup _ _ H1) | apply (sublist_NoDup _ _ H2)];
    apply fmap_sublist, List_filter_sublist.
Qed.

Lemma indices_bounded (l : list nat) n :
  NoDup l -> (forall i, In i l -> (i < n)%nat) -> (length l <= n)%nat.
Proof.
  intros Hnd Hlt. transitivity (length (seq 0 n)); [|by rewrite length_seq].
  apply submseteq_length, NoDup_submseteq; [done|].
  intros i Hi. apply elem_of_seq. apply list_elem_of_In, Hlt in Hi. lia.
Qed.

Lemma sample_counts_nonneg solve gt pred cutoff matching m :
  (forall C, is_assignment (solve C)) ->
  evaluate_sample solve gt pred cutoff = inr (matching, m) ->
  is_assignment matching /\ 0 <= fn m /\ 0 <= fp m.
Proof.
  intros Hsolve He.
  assert (Hin : forall i j, In (i, j) matching ->
            (i < length gt)%nat /\ (j < length pred)%nat).
  { intros i j Hij. unfold evaluate_sample in He.
    destruct (distances gt pred) as [e|D] eqn:HD; [done|]. injection He as <- _.
    destruct (matcher_below _ _ _ _ _ Hij) as (d & Hd & _).
    destruct (entry_distances _ _ _ _ _ _ HD Hd) as (g & p & Hg & Hp & _).
    split; eapply lookup_lt_Some; eauto. }
  unfold evaluate_sample in He.
  destruct (distances gt pred) as [e|D]; [done|]. injection He as <- <-.
  assert (Ha := matcher_is_assignment solve D cutoff (Hsolve _)).
  split; [done|]. destruct Ha as [H1 H2]. simpl.
  assert (length (matcher solve D cutoff) <= length gt)%nat.
  { rewrite <- (length_fmap fst). apply indices_bounded; [done|].
    intros i Hi. apply list_elem_of_In, list_elem_of_fmap in Hi as [[i' j] [-> Hi]].
    apply list_elem_of_In in Hi. by apply Hin in Hi as []. }
  assert (length (matcher solve D cutoff) <= length pred)%nat.
  { rewrite <- (length_fmap snd). apply indices_bounded; [done|].
    intros j Hj. apply list_elem_of_In, list_elem_of_fmap in Hj as [[i j'] [-> Hj]].
    apply list_elem_of_In in Hj. by apply Hin in Hj as []. }
  lia.
Qed.

Lemma diagonal_is_assignment C : is_assignment (diagonal C).
Proof.
  unfold diagonal, is_assignment. rewrite <- !list_fmap_compose.
  split; (apply NoDup_fmap_2; [by intros ?? [=] | apply NoDup_seq]).
Qed.
End EngineFacts.


(** * Further properties of the script *)

(** ** What [parse_args] returns *)

Section EmptyList.
Import argparse.
Variable B : Builtins.

Lemma classify_head_value actions arg_strings v ts :
  classify B actions arg_strings = inr (tok_A v :: ts) -> v <> "--".
Proof.
  destruct arg_strings as [|x rest]; simpl; [done|].
  destruct (String.eqb_spec x "--") as [->|Hx]; [done|].
  destruct (parse_optional B actions x); [| |done];
    destruct (classify B actions rest); simpl; try done.
  by intros [= <- _].
Qed.

Lemma values_ok_positional rest : values_ok (List.map tok_A rest).
Proof. induction rest as [|x rest IH]; simpl; done. Qed.

Lemma classify_values_ok actions arg_strings ts :
  classify B actions arg_strings = inr ts -> values_ok ts.
Proof.
  revert ts. induction arg_strings as [|x rest IH]; intros ts; simpl.
  - by intros [= <-].
  - destruct (String.eqb x "--").
    { intros [= <-]. simpl. apply values_ok_positional. }
    destruct (parse_optional B actions x); [| |done];
      destruct (classify B actions rest) as [err|ts'] eqn:Hrest; simpl; try done;
      intros [= <-]; simpl; [by apply IH|].
    split; [|by apply IH].
    destruct ts' as [|[v| |] ts'']; try done. by eapply classify_head_value.
Qed.

Lemma get_values_empty_list ty v : get_values B ty v = Some PyEmptyList -> v = "--".
Proof.
  unfold get_values. destruct (String.eqb_spec v "--") as [->|Hv]; [done|].
  destruct ty; simpl; try done. by destruct (py_float B v).
Qed.

Lemma take_store_empty_list a ty v ns ns' d :
  take_store B a ty v ns = inr ns' -> ns' !! d = Some PyEmptyList ->
  ns !! d = Some PyEmptyList \/ (v = "--" /\ dest a = d).
Proof.
  unfold take_store. destruct (get_values B ty v) as [x|] eqn:Hv; [|done].
  intros [= <-]. destruct (decide (dest a = d)) as [<-|Hne].
  - rewrite lookup_insert_eq. intros [= ->]. right. split; [|done].
    by eapply get_values_empty_list.
  - rewrite lookup_insert_ne by done. auto.
Qed.

(** An attribute is left holding the empty list only by an option that
    carries the attached value [--]. *)
Lemma consume_empty_list actions d n : forall ts ns seen extras ns' seen' extras',
  (length ts <= n)%nat -> values_ok ts ->
  consume B actions ts ns seen extras = inr (ns', seen', extras') ->
  ns' !! d = Some PyEmptyList ->
  ns !! d = Some PyEmptyList
  \/ exists s a o, In (tok_O s (Some a) o (Some "--")) ts /\ dest a = d.
Proof.
  induction n as [|n IH]; intros ts ns seen extras ns' seen' extras' Hlen Hok Hc Hd.
  - destruct ts; simpl in *; [|lia]. injection Hc as <- _ _. auto.
  - destruct ts as [|[s| |s [a|] o e] ts']; simpl in Hc, Hlen, Hok.
    + injection Hc as <- _ _. auto.
    + assert (Hlen' : (length ts' <= n)%nat) by lia.
      destruct (IH _ _ _ _ _ _ _ Hlen' Hok Hc Hd) as [?|(s' & a' & o' & Hin & ?)];
        [auto | right; exists s', a', o'; split; [by right|done]].
    + assert (Hlen' : (length ts' <= n)%nat) by lia.
      destruct (IH _ _ _ _ _ _ _ Hlen' Hok Hc Hd) as [?|(s' & a' & o' & Hin & ?)];
        [auto | right; exists s', a', o'; split; [by right|done]].
    + destruct Hok as [Hv Hok].
      destruct (action_kind a) as [ty req dflt|].
      * destruct e as [e|].
        -- destruct (take_store B a ty e ns) as [err|ns1] eqn:Hts; simpl in Hc; [done|].
           assert (Hlen' : (length ts' <= n)%nat) by lia.
           destruct (IH _ _ _ _ _ _ _ Hlen' Hok Hc Hd)
             as [H1|(s' & a' & o' & Hin & ?)];
             [|right; exists s', a', o'; split; [by right|done]].
           destruct (take_store_empty_list _ _ _ _ _ _ Hts H1) as [?|[-> ?]]; [auto|].
           right. exists s, a, o. split; [by left|done].
        -- destruct ts' as [|[v| |] ts'']; try done.
           destruct (take_store B a ty v ns) as [err|ns1] eqn:Hts; simpl in Hc; [done|].
           simpl in Hok, Hlen.
           assert (Hlen' : (length ts'' <= n)%nat) by lia.
           destruct (IH _ _ _ _ _ _ _ Hlen' Hok Hc Hd)
             as [H1|(s' & a' & o' & Hin & ?)];
             [|right; exists s', a', o'; split; [by right; right|done]].
           destruct (take_store_empty_list _ _ _ _ _ _ Hts H1) as [?|[-> ?]]; [auto|done].
      * destruct e; [destruct (_ && _)|]; done.
    + destruct Hok as [_ Hok].
      assert (Hlen' : (length ts' <= n)%nat) by lia.
      destruct (IH _ _ _ _ _ _ _ Hlen' Hok Hc Hd) as [?|(s' & a' & o' & Hin & ?)];
        [auto | right; exists s', a', o'; split; [by right|done]].
Qed.

Lemma defaults_no_empty_list d : defaults Script.parser !! d <> Some PyEmptyList.
Proof.
  assert (H : defaults Script.parser
              = <["cutoff" := PyFloat 3.0]>
                  (<["outfile" := PyNone]>
                     (<["predictions" := PyNone]> (<["ground_truth" := PyNone]> ∅))))
    by reflexivity.
  rewrite H. clear H. intros Hd.
  do 4 (apply lookup_insert_Some in Hd as [[_ ?]|[_ Hd]]; [done|]).
  by rewrite lookup_empty in Hd.
Qed.

End EmptyList.

(** X1: a namespace returned by [parse_args] holds the four attributes that
    [main] reads.  The two required directories are never [None]: each is
    a string or the empty list; the output file is [None], a path or the
    empty list, and the cutoff a float or the empty list.  An attribute is
    the empty list only for the value [--]: only when a string of the
    command line, before any separator, is recognised as its option with
    the attached value [--]. *)
Theorem namespace_attributes_typed B argv args :
  argparse.parse_args B Script.parser argv = inr args ->
  (exists v, args !! "ground_truth" = Some v /\ is_str_or_list v)
  /\ (exists v, args !! "predictions" = Some v /\ is_str_or_list v)
  /\ (exists v, args !! "outfile" = Some v /\ is_none_path_or_list v)
  /\ (exists v, args !! "cutoff" = Some v /\ is_float_or_list v)
  /\ forall d, args !! d = Some PyEmptyList ->
       exists s a o,
         In s (argparse.before_dashdash argv)
         /\ argparse.parse_optional B Script.parser s
            = argparse.OptionTuple (Some a) o (Some "--")
         /\ argparse.dest a = d.
Proof.
  intros Hp.
  destruct (parse_args_typed_namespace _ _ _ Hp)
    as ((g & Hg & Hg') & (p & Hpr & Hp') & Ho & Hc).
  apply parse_args_script in Hp as (ts & seen & Hcl & Hco & Hgt & Hpd).
  assert (Hs : forall d, In d seen -> exists v, args !! d = Some v /\ v <> PyNone).
  { eapply consume_seen; [|exact Hco]. intros d []. }
  destruct (Hs _ Hgt) as (g' & Hg2 & Hgn). destruct (Hs _ Hpd) as (p' & Hp2 & Hpn).
  repeat split; try done.
  - exists g. split; [done|]. destruct Hg' as [->|]; [congruence|done].
  - exists p. split; [done|]. destruct Hp' as [->|]; [congruence|done].
  - intros d Hd.
    destruct (consume_empty_list B Script.parser d _ _ _ _ _ _ _ _ (le_n _)
                (classify_values_ok B _ _ _ Hcl) Hco Hd) as [H0|(s & a & o & Hin & Ha)].
    + by apply defaults_no_empty_list in H0.
    + destruct (classify_options _ _ _ _ _ _ _ _ Hcl Hin) as [Hpre Hpo].
      by exists s, a, o.
Qed.

Lemma namespace_attributes_typed_witness :
  exists s a o,
    In s (argparse.before_dashdash ["-gt"; "gt"; "-p--"])
    /\ argparse.parse_optional Builtin.builtins Script.parser s
       = argparse.OptionTuple (Some a) o (Some "--")
    /\ argparse.dest a = "predictions".
Proof.
  apply (proj2 (proj2 (proj2 (proj2
           (namespace_attributes_typed Builtin.builtins ["-gt"; "gt"; "-p--"] _ eq_refl))))
           "predictions").
  reflexivity.
Defined.

(** X2: [parse_args] returns only when the command line supplies both
    required options: some string before a [--] is recognised as
    [-gt/--ground-truth] and some string as [-p/--predictions]. *)
Theorem required_options_supplied B argv args :
  argparse.parse_args B Script.parser argv = inr args ->
  argparse.supplies B Script.parser "ground_truth" argv = true
  /\ argparse.supplies B Script.parser "predictions" argv = true.
Proof.
  intros Hp. apply parse_args_script in Hp as (ts & seen & Hcl & Hco & Hgt & Hpd).
  assert (Hs : forall d, In d seen -> argparse.supplies B Script.parser d argv = true).
  { eapply consume_seen_supplied; [exact Hcl | | exact Hco]. intros d []. }
  auto.
Qed.

Lemma required_options_supplied_witness :
  argparse.supplies Builtin.builtins Script.parser "ground_truth"
    ["-gt"; "gt"; "-p"; "pred"] = true
  /\ argparse.supplies Builtin.builtins Script.parser "predictions"
       ["-gt"; "gt"; "-p"; "pred"] = true.
Proof.
  apply (required_options_supplied Builtin.builtins ["-gt"; "gt"; "-p"; "pred"] _ eq_refl).
Defined.

(** X3: when [parse_args] does not return, it exits with status 2 (a usage
    error) or 0 (help), and [main] ends with that exit before anything is
    listed, read, computed or written. *)
Theorem parse_failure_exits B argv e :
  argparse.parse_args B Script.parser argv = inl e ->
  (e = SystemExit 2 \/ e = SystemExit 0)
  /\ forall (W : Type) (h : Handler W) (w : W),
       exec h (Script.main B argv) w = {| result := inl e; world := w; trace := [] |}.
Proof.
  intros Hp. split; [by eapply parse_args_error|].
  intros W h w. unfold Script.main. by rewrite Hp.
Qed.

Lemma parse_failure_exits_witness :
  exec (FS.handler Example.library) (Script.main Builtin.builtins ["-gt"; "gt"])
    Example.tree
  = {| result := inl (SystemExit 2); world := Example.tree; trace := [] |}.
Proof.
  apply (parse_failure_exits Builtin.builtins ["-gt"; "gt"] (SystemExit 2)).
  reflexivity.
Defined.

Section CommandLine.
Import argparse.
Variable B : Builtins.

Lemma classify_cons actions s rest :
  classify B actions (s :: rest)
  = if String.eqb s "--" then inr (tok_dashdash :: List.map tok_A rest)
    else match parse_optional B actions s with
         | Ambiguous => inl error
         | Positional => (fun ts => tok_A s :: ts) <$> classify B actions rest
         | OptionTuple a o e => (fun ts => tok_O s a o e :: ts) <$> classify B actions rest
         end.
Proof. reflexivity. Qed.

Lemma not_dashdash s : str.startswith s "-" = false -> String.eqb s "--" = false.
Proof.
  intros H. destruct (String.eqb_spec s "--") as [->|]; [done|done].
Qed.

Lemma classify_value actions s rest :
  str.startswith s "-" = false ->
  classify B actions (s :: rest) = (fun ts => tok_A s :: ts) <$> classify B actions rest.
Proof.
  intros H. rewrite classify_cons, (not_dashdash s H).
  unfold parse_optional. rewrite H. by destruct (String.eqb s "").
Qed.

Lemma take_store_value a ty s ns :
  str.startswith s "-" = false ->
  take_store B a ty s ns
  = match get_value B ty s with
    | Some v => inr (<[dest a := v]> ns)
    | None => inl error
    end.
Proof. intros H. unfold take_store, get_values. by rewrite (not_dashdash s H). Qed.

End CommandLine.

Lemma classify_option B actions s rest a o e :
  String.eqb s "--" = false ->
  argparse.parse_optional B actions s = argparse.OptionTuple a o e ->
  argparse.classify B actions (s :: rest)
  = (fun ts => argparse.tok_O s a o e :: ts) <$> argparse.classify B actions rest.
Proof. intros H1 H2. by rewrite classify_cons, H1, H2. Qed.

Lemma classify_command_line B g p o c :
  str.startswith g "-" = false -> str.startswith p "-" = false ->
  str.startswith o "-" = false -> str.startswith c "-" = false ->
  exists a_gt a_p a_o a_c,
    argparse.classify B Script.parser ["-gt"; g; "-p"; p; "-o"; o; "--cutoff"; c]
    = inr [argparse.tok_O "-gt" (Some a_gt) "-gt" None; argparse.tok_A g;
           argparse.tok_O "-p" (Some a_p) "-p" None; argparse.tok_A p;
           argparse.tok_O "-o" (Some a_o) "-o" None; argparse.tok_A o;
           argparse.tok_O "--cutoff" (Some a_c) "--cutoff" None; argparse.tok_A c]
    /\ (argparse.dest a_gt, argparse.action_kind a_gt)
       = ("ground_truth", argparse.store argparse.type_str true PyNone)
    /\ (argparse.dest a_p, argparse.action_kind a_p)
       = ("predictions", argparse.store argparse.type_str true PyNone)
    /\ (argparse.dest a_o, argparse.action_kind a_o)
       = ("outfile", argparse.store argparse.type_Path false PyNone)
    /\ (argparse.dest a_c, argparse.action_kind a_c)
       = ("cutoff", argparse.store argparse.type_float false (PyFloat 3.0)).
Proof.
  intros Hg Hp Ho Hc. do 4 eexists. split.
  - rewrite (classify_option B Script.parser "-gt" _ _ _ _ eq_refl eq_refl).
    rewrite (classify_value B _ g _ Hg).
    rewrite (classify_option B Script.parser "-p" _ _ _ _ eq_refl eq_refl).
    rewrite (classify_value B _ p _ Hp).
    rewrite (classify_option B Script.parser "-o" _ _ _ _ eq_refl eq_refl).
    rewrite (classify_value B _ o _ Ho).
    rewrite (classify_option B Script.parser "--cutoff" _ _ _ _ eq_refl eq_refl).
    rewrite (classify_value B _ c _ Hc).
    reflexivity.
  - repeat split.
Qed.

(** X4: the command line with the four options in full, with values that do
    not start with a dash.  The directories are stored as strings, the
    output as a [Path], the cutoff as the float [float()] returns for it;
    when [float()] rejects the cutoff string the parser exits with status 2. *)
Theorem command_line_parses B g p o c :
  str.startswith g "-" = false -> str.startswith p "-" = false ->
  str.startswith o "-" = false -> str.startswith c "-" = false ->
  argparse.parse_args B Script.parser ["-gt"; g; "-p"; p; "-o"; o; "--cutoff"; c]
  = match py_float B c with
    | Some x =>
        inr (<["cutoff" := PyFloat x]>
               (<["outfile" := PyPath (of_str o)]>
                  (<["predictions" := PyStr p]>
                     (<["ground_truth" := PyStr g]> (argparse.defaults Script.parser)))))
    | None => inl (SystemExit 2)
    end.
Proof.
  intros Hg Hp Ho Hc. unfold argparse.parse_args.
  destruct (classify_command_line B g p o c Hg Hp Ho Hc)
    as (a_gt & a_p & a_o & a_c & -> & [= Dg Kg] & [= Dp Kp] & [= Do Ko] & [= Dc Kc]).
  cbn [mbind result_bind argparse.consume].
  rewrite Kg, Kp, Ko, Kc, Dg, Dp, Do, Dc.
  repeat (rewrite take_store_value by done; cbn [argparse.get_value mbind result_bind]).
  rewrite Dg, Dp, Do, Dc.
  destruct (py_float B c) as [x|]; reflexivity.
Qed.

Lemma command_line_parses_witness :
  argparse.parse_args Builtin.builtins Script.parser
    ["-gt"; "gt"; "-p"; "pred"; "-o"; "out/m.csv"; "--cutoff"; "0.5"]
  = match py_float Builtin.builtins "0.5" with
    | Some x =>
        inr (<["cutoff" := PyFloat x]>
               (<["outfile" := PyPath (of_str "out/m.csv")]>
                  (<["predictions" := PyStr "pred"]>
                     (<["ground_truth" := PyStr "gt"]> (argparse.defaults Script.parser)))))
    | None => inl (SystemExit 2)
    end.
Proof.
  apply (command_line_parses Builtin.builtins "gt" "pred" "out/m.csv" "0.5"); reflexivity.
Defined.

(** ** The steps of [main] *)

(** X5: [main] calls the engine exactly once when [load_data] returns, on
    the two tuples it returned, with [args.cutoff] and [by_image=True]; it
    does not call the engine when [load_data] raises. *)
Theorem engine_called_once_on_loaded_data {W : Type} (h : Handler W) w B argv args
    gt_path pred_path cutoff :
  argparse.parse_args B Script.parser argv = inr args ->
  args !! "ground_truth" = Some gt_path ->
  args !! "predictions" = Some pred_path ->
  args !! "cutoff" = Some cutoff ->
  List.filter (fun c => bool_decide (is_engine_call c)) (calls (exec h (Script.main B argv) w))
  = match result (exec h (Script.load_data gt_path pred_path false) w) with
    | inr (gts, preds) => [points_matching_dataset gts preds cutoff true]
    | inl _ => []
    end.
Proof.
  intros Hp Hgt Hpr Hcut.
  destruct (parse_args_attributes _ _ _ Hp) as (_ & _ & outfile & _ & _ & _ & Hout & _).
  rewrite (main_exec h w _ _ _ _ _ _ _ Hp Hgt Hpr Hcut Hout). cbv zeta.
  pose proof (load_data_no_engine_call h w gt_path pred_path false) as Hl.
  destruct (result (exec h (Script.load_data gt_path pred_path false) w))
    as [e|[gts preds]]; [done|].
  unfold calls in *. simpl. rewrite map_app, List.filter_app, Hl. simpl.
  unfold after_load.
  destruct (h (points_matching_dataset gts preds cutoff true) _) as [[e|m] w2]; [done|].
  destruct outfile as [|s|o|x|]; try done.
  destruct (h (mkdir (parent o) true true) w2) as [[e|[]] w3]; done.
Qed.

Lemma engine_called_once_on_loaded_data_witness :
  List.filter (fun c => bool_decide (is_engine_call c))
    (calls (exec (FS.handler Example.library)
              (Script.main Builtin.builtins ["-gt"; "gt"; "-p"; "pred"]) Example.tree))
  = match result (exec (FS.handler Example.library)
                    (Script.load_data (PyStr "gt") (PyStr "pred") false) Example.tree) with
    | inr (gts, preds) => [points_matching_dataset gts preds (PyFloat 3.0) true]
    | inl _ => []
    end.
Proof.
  apply (engine_called_once_on_loaded_data (FS.handler Example.library) Example.tree
           Builtin.builtins ["-gt"; "gt"; "-p"; "pred"] _ _ _ _ eq_refl);
    reflexivity.
Defined.

(** X6: a table is written only as the last step of a run.  If a run of
    [main] issues [to_csv], then [load_data] returned, the engine answered
    with some metrics, [mkdir(parents=True, exist_ok=True)] on the parent of
    [args.outfile] succeeded, and the call is
    [to_csv] of the one-row frame of these metrics to [args.outfile] with
    [index=False]; its reply is the result of the run. *)
Theorem table_written_last {W : Type} (h : Handler W) w B argv args
    gt_path pred_path cutoff outfile df path index :
  argparse.parse_args B Script.parser argv = inr args ->
  args !! "ground_truth" = Some gt_path ->
  args !! "predictions" = Some pred_path ->
  args !! "cutoff" = Some cutoff ->
  args !! "outfile" = Some outfile ->
  In (to_csv df path index) (calls (exec h (Script.main B argv) w)) ->
  exists gts preds metrics,
    result (exec h (Script.load_data gt_path pred_path false) w) = inr (gts, preds)
    /\ outfile = PyPath path /\ df = mkDataFrame metrics [0] /\ index = false
    /\ trace (exec h (Script.main B argv) w)
       = trace (exec h (Script.load_data gt_path pred_path false) w)
         ++ [Ev (points_matching_dataset gts preds cutoff true) (inr metrics);
             Ev (mkdir (parent path) true true) (inr tt);
             Ev (to_csv df path index) (result (exec h (Script.main B argv) w))].
Proof.
  intros Hp Hgt Hpr Hcut Hout.
  rewrite (main_exec h w _ _ _ _ _ _ _ Hp Hgt Hpr Hcut Hout). cbv zeta.
  assert (Hl : ~ In (to_csv df path index)
                 (calls (exec h (Script.load_data gt_path pred_path false) w))).
  { intros Hin.
    assert (H : Forall read_only
                  (calls (exec h (Script.load_data gt_path pred_path false) w))).
    { apply all_calls_exec, load_data_calls; done. }
    rewrite List.Forall_forall in H. by apply H in Hin. }
  destruct (result (exec h (Script.load_data gt_path pred_path false) w))
    as [e|[gts preds]]; [done|].
  unfold calls in *. simpl. rewrite map_app, in_app_iff.
  intros [Hin|Hin]; [done|]. revert Hin. unfold after_load.
  destruct (h (points_matching_dataset gts preds cutoff true) _) as [[e|m] w2].
  { simpl. intros [|[]]; done. }
  destruct outfile as [|s|o|x|]; try (simpl; intros [|[]]; done).
  destruct (h (mkdir (parent o) true true) w2) as [[e|[]] w3].
  { simpl. intros [|[|[]]]; done. }
  simpl. intros [|[|[[= <- <- <-]|[]]]]; try done.
  by exists gts, preds, m.
Qed.

Lemma table_written_last_witness :
  let h := FS.handler Example.library in
  let argv := ["-gt"; "gt"; "-p"; "pred"; "-o"; "out/sub/m.csv"] in
  let df := {| df_columns := ["precision"; "recall"; "f1"; "tp"; "fp"; "fn"];
               df_index := [0];
               df_rows := [[Float (3 # 4); Float (3 # 4); Float (3 # 4);
                            Int 2; Int 1; Int 1]] |} in
  exists gts preds metrics,
    result (exec h (Script.load_data (PyStr "gt") (PyStr "pred") false) Example.tree)
    = inr (gts, preds)
    /\ PyPath ["out"; "sub"; "m.csv"] = PyPath ["out"; "sub"; "m.csv"]
    /\ df = mkDataFrame metrics [0] /\ false = false
    /\ trace (exec h (Script.main Builtin.builtins argv) Example.tree)
       = trace (exec h (Script.load_data (PyStr "gt") (PyStr "pred") false) Example.tree)
         ++ [Ev (points_matching_dataset gts preds (PyFloat 3.0) true) (inr metrics);
             Ev (mkdir (parent ["out"; "sub"; "m.csv"]) true true) (inr tt);
             Ev (to_csv df ["out"; "sub"; "m.csv"] false)
                (result (exec h (Script.main Builtin.builtins argv) Example.tree))].
Proof.
  cbv zeta.
  apply (table_written_last (FS.handler Example.library) Example.tree Builtin.builtins
           ["-gt"; "gt"; "-p"; "pred"; "-o"; "out/sub/m.csv"] _
           (PyStr "gt") (PyStr "pred") (PyFloat 3.0) (PyPath ["out"; "sub"; "m.csv"])
           _ _ _ eq_refl); try reflexivity.
  vm_compute. do 8 right. left. reflexivity.
Defined.

(** ** The file system under [mkdir] and [to_csv] *)

Lemma os_mkdir_grows (w : gmap Path FS.node) p w' :
  FS.os_mkdir w p = inr w' -> w !! p = None /\ w' = <[p := FS.Dir]> w.
Proof.
  unfold FS.os_mkdir, FS.exists_.
  destruct (w !! p) eqn:Hp; [done|].
  destruct (FS.is_anchor p); [done|].
  destruct (FS.is_dir w (parent p)); [by intros [= <-]|].
  by destruct (match w !! parent p with Some _ => true | None => _ end).
Qed.

Lemma mkdir_grows fuel : forall (w : gmap Path FS.node) p parents exist_ok r w',
  FS.mkdir_ fuel w p parents exist_ok = (r, w') ->
  forall q, (forall n, w !! q = Some n -> w' !! q = Some n)
            /\ (forall n, w' !! q = Some n -> w !! q = Some n \/ n = FS.Dir).
Proof.
  induction fuel as [|fuel IH]; intros w p parents exist_ok r w'; simpl.
  - destruct (FS.os_mkdir w p) as [[]|w1] eqn:Hos.
    + destruct (_ || _); intros [= <- <-]; auto.
    + destruct (_ || _); intros [= <- <-]; auto.
    + destruct (_ || _); intros [= <- <-]; auto.
    + destruct (_ || _); intros [= <- <-]; auto.
    + intros [= <- <-] q. apply os_mkdir_grows in Hos as [Hn ->].
      destruct (decide (p = q)) as [<-|Hne].
      * rewrite lookup_insert_eq. split; [congruence|]. intros n [= <-]. auto.
      * rewrite lookup_insert_ne by done. auto.
  - destruct (FS.os_mkdir w p) as [[]|w1] eqn:Hos.
    + destruct (_ || _); [intros [= <- <-]; auto|].
      destruct (FS.mkdir_ fuel w (parent p) true true) as [[e|[]] w1] eqn:H1.
      * intros [= <- <-] q. eapply IH, H1.
      * intros H2 q. destruct (IH _ _ _ _ _ _ H1 q) as [Ha Hb].
        destruct (IH _ _ _ _ _ _ H2 q) as [Hc Hd]. split; [auto|].
        intros n Hn. apply Hd in Hn as [Hn|]; auto.
    + destruct (_ || _); intros [= <- <-]; auto.
    + destruct (_ || _); intros [= <- <-]; auto.
    + destruct (_ || _); intros [= <- <-]; auto.
    + intros [= <- <-] q. apply os_mkdir_grows in Hos as [Hn ->].
      destruct (decide (p = q)) as [<-|Hne].
      * rewrite lookup_insert_eq. split; [congruence|]. intros n [= <-]. auto.
      * rewrite lookup_insert_ne by done. auto.
Qed.

Lemma write_spec (w : gmap Path FS.node) p content r w' :
  FS.write w p content = (r, w') ->
  match r with
  | inr _ => w' = <[p := FS.File content]> w /\ FS.is_dir w (parent p) = true
             /\ FS.is_dir w p = false
  | inl _ => w' = w
  end.
Proof.
  unfold FS.write. destruct (FS.is_dir w p) eqn:Hd; [by intros [= <- <-]|].
  destruct (FS.is_dir w (parent p)) eqn:Hpd; [by intros [= <- <-]|].
  destruct (FS.exists_ w (parent p)); by intros [= <- <-].
Qed.

Lemma load_data_fs_world (L : FS.Library) (w : gmap Path FS.node) gt_path pred_path is_3d :
  world (exec (FS.handler L) (Script.load_data gt_path pred_path is_3d) w) = w.
Proof.
  apply (exec_world_unchanged read_only).
  - intros c w'. apply fs_handler_read_only.
  - apply load_data_calls; [done|]. by destruct is_3d.
Qed.

(** X7: on a file system, a run of [main] with an output path that
    completes leaves at that path the rendering (without the index) of the
    one-row frame of the metrics the engine returned for the loaded data,
    in a directory that exists. *)
Theorem completed_run_writes_table (L : FS.Library) (w : gmap Path FS.node) B argv args
    gt_path pred_path cutoff outfile :
  argparse.parse_args B Script.parser argv = inr args ->
  args !! "ground_truth" = Some gt_path ->
  args !! "predictions" = Some pred_path ->
  args !! "cutoff" = Some cutoff ->
  args !! "outfile" = Some (PyPath outfile) ->
  result (exec (FS.handler L) (Script.main B argv) w) = inr tt ->
  exists gts preds metrics,
    result (exec (FS.handler L) (Script.load_data gt_path pred_path false) w)
    = inr (gts, preds)
    /\ FS.engine L gts preds cutoff true = inr metrics
    /\ world (exec (FS.handler L) (Script.main B argv) w) !! outfile
       = Some (FS.File (FS.render_csv L (mkDataFrame metrics [0]) false))
    /\ FS.is_dir (world (exec (FS.handler L) (Script.main B argv) w)) (parent outfile) = true.
Proof.
  intros Hp Hgt Hpr Hcut Hout.
  rewrite (main_exec _ w _ _ _ _ _ _ _ Hp Hgt Hpr Hcut Hout). cbv zeta.
  rewrite load_data_fs_world.
  destruct (result (exec (FS.handler L) (Script.load_data gt_path pred_path false) w))
    as [e|[gts preds]]; [done|].
  unfold after_load. cbn [FS.handler].
  destruct (FS.engine L gts preds cutoff true) as [e|m] eqn:Hm; [done|].
  destruct (FS.mkdir_ _ w (parent outfile) true true) as [[e|[]] w3] eqn:Hmk; [done|].
  destruct (FS.write w3 outfile _) as [r w4] eqn:Hw. cbn [result world fst snd].
  intros ->. apply write_spec in Hw as (-> & Hpd & Hd).
  exists gts, preds, m. repeat split; try done.
  - by rewrite lookup_insert_eq.
  - assert (Hne : outfile <> parent outfile) by congruence.
    unfold FS.is_dir in *. by rewrite lookup_insert_ne.
Qed.

Lemma completed_run_writes_table_witness :
  let h := FS.handler Example.library in
  let o := exec h (Script.main Builtin.builtins
                     ["-gt"; "gt"; "-p"; "pred"; "-o"; "out/sub/m.csv"]) Example.tree in
  exists gts preds metrics,
    result (exec h (Script.load_data (PyStr "gt") (PyStr "pred") false) Example.tree)
    = inr (gts, preds)
    /\ FS.engine Example.library gts preds (PyFloat 3.0) true = inr metrics
    /\ world o !! ["out"; "sub"; "m.csv"]
       = Some (FS.File (FS.render_csv Example.library (mkDataFrame metrics [0]) false))
    /\ FS.is_dir (world o) (parent ["out"; "sub"; "m.csv"]) = true.
Proof.
  cbv zeta.
  apply (completed_run_writes_table Example.library Example.tree Builtin.builtins
           ["-gt"; "gt"; "-p"; "pred"; "-o"; "out/sub/m.csv"] _
           (PyStr "gt") (PyStr "pred") (PyFloat 3.0) ["out"; "sub"; "m.csv"] eq_refl);
    reflexivity.
Defined.

(** X8: on a file system, [main] does not remove or alter any entry other
    than the output file.  The file system names an entry by the parts of
    its path, so the statement is for paths that name entries in one way
    only: for a canonical path [q] and, when there is an output path, a
    canonical output path of the same kind (relative or absolute) other
    than [q].  Then the entry at [q] present before the run is there
    unchanged afterwards, and an entry at [q] that is new is a directory. *)
Theorem main_keeps_existing_entries (L : FS.Library) (w : gmap Path FS.node) B argv q :
  canonical q = true ->
  (forall args o, argparse.parse_args B Script.parser argv = inr args ->
                  args !! "outfile" = Some (PyPath o) ->
                  canonical o = true /\ has_root o = has_root q /\ o <> q) ->
  (forall n, w !! q = Some n ->
             world (exec (FS.handler L) (Script.main B argv) w) !! q = Some n)
  /\ (forall n, world (exec (FS.handler L) (Script.main B argv) w) !! q = Some n ->
                w !! q = Some n \/ n = FS.Dir).
Proof.
  intros _ Hq.
  destruct (argparse.parse_args B Script.parser argv) as [e|args] eqn:Hp.
  { unfold Script.main. rewrite Hp. simpl. auto. }
  destruct (parse_args_attributes _ _ _ Hp)
    as (gt & pr & outfile & cutoff & Hgt & Hpr & Hout & Hcut).
  rewrite (main_exec _ w _ _ _ _ _ _ _ Hp Hgt Hpr Hcut Hout). cbv zeta.
  rewrite load_data_fs_world.
  destruct (result (exec (FS.handler L) (Script.load_data gt pr false) w))
    as [e|[gts preds]]; [simpl; auto|].
  unfold after_load. cbn [FS.handler].
  destruct (FS.engine L gts preds cutoff true) as [e|m]; [simpl; auto|].
  destruct outfile as [|s|o|x|]; try (simpl; auto).
  destruct (Hq args o eq_refl Hout) as (_ & _ & Hne).
  destruct (FS.mkdir_ _ w (parent o) true true) as [[e|[]] w3] eqn:Hmk.
  { simpl. eapply mkdir_grows, Hmk. }
  destruct (FS.write w3 o _) as [r w4] eqn:Hw. cbn [result world fst snd].
  assert (Hw4 : w4 !! q = w3 !! q).
  { apply write_spec in Hw. destruct r as [e|u].
    - by subst.
    - destruct Hw as (-> & _). by rewrite lookup_insert_ne. }
  rewrite Hw4. eapply mkdir_grows, Hmk.
Qed.

Lemma main_keeps_existing_entries_witness :
  world (exec (FS.handler Example.library)
           (Script.main Builtin.builtins ["-gt"; "gt"; "-p"; "pred"; "-o"; "gt/out.csv"])
           Example.tree) !! ["gt"; "notes.txt"]
  = Some (FS.File "not a table").
Proof.
  apply (main_keeps_existing_entries Example.library Example.tree Builtin.builtins
           ["-gt"; "gt"; "-p"; "pred"; "-o"; "gt/out.csv"] ["gt"; "notes.txt"]).
  - reflexivity.
  - intros args o Hp Ho.
    apply (f_equal (fun r => match r with
                             | inr a => a !! "outfile"
                             | inl _ => None
                             end)) in Hp.
    rewrite Ho in Hp. vm_compute in Hp. injection Hp as <-.
    repeat split. discriminate.
  - reflexivity.
Defined.

(** ** The calls and the reads of [load_data] *)

Lemma load_data_loader_calls gt_path pred_path (is_3d : bool) :
  all_calls (loader_call is_3d) (Script.load_data gt_path pred_path is_3d).
Proof.
  unfold Script.load_data.
  apply all_calls_bind; [by destruct gt_path|]. intros g.
  apply all_calls_bind; [by destruct pred_path|]. intros p.
  apply all_calls_bind; [by apply all_calls_fmap, all_calls_call|]. intros gt_files.
  apply all_calls_bind; [by apply all_calls_fmap, all_calls_call|]. intros pred_files.
  destruct (negb _); [done|]. destruct (negb _); [done|].
  assert (Hfn : forall f, all_calls (loader_call is_3d)
    ((if is_3d then fun fname => call (read_coords_csv3d fname)
      else fun fname => call (read_coords_csv fname)) f)).
  { intros f. destruct is_3d; by apply all_calls_call. }
  apply all_calls_bind; [by apply all_calls_tuple_of|]. intros gts.
  apply all_calls_bind; [by apply all_calls_tuple_of|]. done.
Qed.

(** X9: [load_data] only lists with the pattern ["*.csv"] and reads with the
    reader its flag selects: it never calls the engine, never creates a
    directory and never writes; on a file system it changes nothing. *)
Theorem load_data_lists_and_reads gt_path pred_path (is_3d : bool) :
  all_calls (loader_call is_3d) (Script.load_data gt_path pred_path is_3d)
  /\ (forall (W : Type) (h : Handler W) (w : W),
        Forall (loader_call is_3d)
          (calls (exec h (Script.load_data gt_path pred_path is_3d) w)))
  /\ forall (L : FS.Library) (w : gmap Path FS.node),
       world (exec (FS.handler L) (Script.load_data gt_path pred_path is_3d) w) = w.
Proof.
  split; [apply load_data_loader_calls|]. split.
  - intros W h w. apply all_calls_exec, load_data_loader_calls.
  - intros L w. apply load_data_fs_world.
Qed.

Lemma exec_reader_error {W : Type} (h : Handler W) is_3d f w e :
  result (exec h (reader is_3d f) w) = inl e ->
  trace (exec h (reader is_3d f) w) = [failed_read is_3d f e].
Proof.
  unfold reader, failed_read.
  destruct is_3d; simpl; destruct (h _ w) as [[e'|x] w']; simpl; intros [= ->]; done.
Qed.

Lemma exec_tuple_of_readers_error {W : Type} (h : Handler W) is_3d fs w e :
  result (exec h (tuple_of (reader is_3d) fs) w) = inl e ->
  exists n f arrays,
    fs !! n = Some f /\ length arrays = n
    /\ trace (exec h (tuple_of (reader is_3d) fs) w)
       = read_events is_3d (take n fs) arrays ++ [failed_read is_3d f e].
Proof.
  revert w. induction fs as [|f fs IH]; intros w; simpl; [done|].
  rewrite exec_bind.
  destruct (result (exec h (reader is_3d f) w)) as [e'|a] eqn:Ha; simpl.
  - intros [= ->]. exists 0%nat, f, []. repeat split.
    by rewrite (exec_reader_error _ _ _ _ _ Ha).
  - rewrite exec_bind.
    destruct (result (exec h (tuple_of (reader is_3d) fs) _)) as [e'|ys] eqn:Hys;
      simpl; [|done].
    intros [= ->]. apply IH in Hys as (n & f' & arrays & Hf & Hlen & Htr).
    exists (S n), f', (a :: arrays). repeat split; [done|simpl; by f_equal|].
    rewrite (exec_reader_ok _ _ _ _ _ Ha), Htr. done.
Qed.

Lemma read_events_app is_3d fs1 fs2 as1 as2 :
  length fs1 = length as1 ->
  read_events is_3d (fs1 ++ fs2) (as1 ++ as2)
  = read_events is_3d fs1 as1 ++ read_events is_3d fs2 as2.
Proof.
  intros Hlen. unfold read_events.
  rewrite <- map_app. f_equal.
  revert as1 Hlen. induction fs1 as [|f fs1 IH]; intros [|a as1]; simpl; try done.
  intros [= Hlen]. f_equal. auto.
Qed.

(** X10: when the listings pass both checks and [load_data] raises, the
    exception is that of a read.  The files before it, in the order sorted
    ground truths then sorted predictions, were read successfully, and
    nothing is read after the read that failed. *)
Theorem failed_read_ends_loading {W : Type} (h : Handler W) w gt_path pred_path is_3d
    gt_dir pred_dir l1 w1 l2 w2 e :
  Script.Path_ gt_path = Ret gt_dir ->
  Script.Path_ pred_path = Ret pred_dir ->
  h (glob gt_dir "*.csv") w = (inr l1, w1) ->
  h (glob pred_dir "*.csv") w1 = (inr l2, w2) ->
  length l1 = length l2 ->
  files_match (sorted l1) (sorted l2) = true ->
  result (exec h (Script.load_data gt_path pred_path is_3d) w) = inl e ->
  exists n f arrays,
    (sorted l1 ++ sorted l2) !! n = Some f /\ length arrays = n
    /\ trace (exec h (Script.load_data gt_path pred_path is_3d) w)
       = [glob_event gt_dir l1; glob_event pred_dir l2]
         ++ read_events is_3d (take n (sorted l1 ++ sorted l2)) arrays
         ++ [failed_read is_3d f e].
Proof.
  intros Hg Hp H1 H2 Hlen Hm.
  rewrite (load_data_exec h w _ _ _ _ _ _ _ _ _ Hg Hp H1 H2). cbv zeta.
  rewrite !sorted_length, Hlen, Nat.eqb_refl, Hm. simpl negb. cbv iota.
  destruct (result (exec h (tuple_of (reader is_3d) (sorted l1)) w2)) as [e1|gts] eqn:Hgts.
  - cbn [result trace]. intros [= ->].
    apply exec_tuple_of_readers_error in Hgts as (n & f & arrays & Hf & Hn & Htr).
    exists n, f, arrays. split; [|split; [done|]].
    + by apply lookup_app_l_Some.
    + rewrite Htr. do 3 f_equal. rewrite take_app_le; [done|].
      apply lookup_lt_Some in Hf. lia.
  - destruct (exec_tuple_of_readers _ _ _ _ _ Hgts) as [Hgl Hgtr].
    cbn [result trace].
    destruct (result (exec h (tuple_of (reader is_3d) (sorted l2)) _)) as [e2|preds] eqn:Hps;
      [|done].
    simpl. intros [= ->].
    apply exec_tuple_of_readers_error in Hps as (n & f & arrays & Hf & Hn & Htr).
    exists (length (sorted l1) + n)%nat, f, (gts ++ arrays). split; [|split].
    + rewrite lookup_app_r by lia. by replace (_ + n - _)%nat with n by lia.
    + rewrite length_app. lia.
    + rewrite Hgtr, Htr. rewrite take_app_add'; [|done].
      rewrite read_events_app by done. unfold read_events.
      by rewrite <- !app_assoc.
Qed.

Lemma failed_read_ends_loading_witness :
  let h := FS.handler Example.library in
  let l1 := FS.glob_ Trees.broken ["gt"] "*.csv" in
  let l2 := FS.glob_ Trees.broken ["pred"] "*.csv" in
  exists n f arrays,
    (sorted l1 ++ sorted l2) !! n = Some f /\ length arrays = n
    /\ trace (exec h (Script.load_data (PyStr "gt") (PyStr "pred") false) Trees.broken)
       = [glob_event ["gt"] l1; glob_event ["pred"] l2]
         ++ read_events false (take n (sorted l1 ++ sorted l2)) arrays
         ++ [failed_read false f (ValueError "number")].
Proof.
  cbv zeta.
  apply (failed_read_ends_loading (FS.handler Example.library) Trees.broken
           (PyStr "gt") (PyStr "pred") false ["gt"] ["pred"]
           _ Trees.broken _ Trees.broken (ValueError "number") eq_refl eq_refl
           (fs_handler_glob _ _ _ _ _ eq_refl) (fs_handler_glob _ _ _ _ _ eq_refl)).
  - vm_compute. reflexivity.
  - vm_compute. reflexivity.
  - vm_compute. reflexivity.
Defined.

Lemma calls_tuple_of_readers {W : Type} (h : Handler W) is_3d fs w :
  exists n,
    calls (exec h (tuple_of (reader is_3d) fs) w) = List.map (reader_call is_3d) (take n fs).
Proof.
  revert w. induction fs as [|f fs IH]; intros w; simpl.
  - by exists 0%nat.
  - rewrite exec_bind.
    assert (Hc : calls (exec h (reader is_3d f) w) = [reader_call is_3d f]).
    { unfold reader, reader_call, calls.
      destruct is_3d; simpl; by destruct (h _ w) as [[e|x] w']. }
    destruct (result (exec h (reader is_3d f) w)) as [e|a].
    + exists 1%nat. unfold calls in *. simpl. by rewrite Hc.
    + cbv zeta. rewrite exec_bind.
      destruct (IH (world (exec h (reader is_3d f) w))) as [n Hn].
      exists (S n). simpl.
      destruct (result (exec h (tuple_of (reader is_3d) fs) _)); unfold calls in *; simpl;
        rewrite ?app_nil_r, map_app, Hc, Hn; done.
Qed.

Lemma load_data_reads_in_order {W : Type} (h : Handler W) w gt_path pred_path is_3d
    gt_dir pred_dir l1 w1 l2 w2 :
  Script.Path_ gt_path = Ret gt_dir ->
  Script.Path_ pred_path = Ret pred_dir ->
  h (glob gt_dir "*.csv") w = (inr l1, w1) ->
  h (glob pred_dir "*.csv") w1 = (inr l2, w2) ->
  exists n,
    calls (exec h (Script.load_data gt_path pred_path is_3d) w)
    = [glob gt_dir "*.csv"; glob pred_dir "*.csv"]
      ++ List.map (reader_call is_3d) (take n (sorted l1 ++ sorted l2)).
Proof.
  intros Hg Hp H1 H2.
  rewrite (load_data_exec h w _ _ _ _ _ _ _ _ _ Hg Hp H1 H2). cbv zeta.
  destruct (negb (length (sorted l1) =? length (sorted l2))%nat); [by exists 0%nat|].
  destruct (negb (files_match (sorted l1) (sorted l2))); [by exists 0%nat|].
  destruct (calls_tuple_of_readers h is_3d (sorted l1) w2) as [n Hn].
  destruct (result (exec h (tuple_of (reader is_3d) (sorted l1)) w2)) as [e|gts] eqn:Hgts.
  - exists (n `min` length (sorted l1))%nat. unfold calls in *. cbn [trace].
    rewrite map_app, Hn. cbn [List.map].
    rewrite take_app_le by lia.
    rewrite <- take_take, (take_ge (sorted l1) (length (sorted l1))) by lia. done.
  - destruct (exec_tuple_of_readers _ _ _ _ _ Hgts) as [Hgl Hgtr].
    destruct (calls_tuple_of_readers h is_3d (sorted l2)
                (world (exec h (tuple_of (reader is_3d) (sorted l1)) w2))) as [m Hm].
    exists (length (sorted l1) + m)%nat. unfold calls in *. cbn [trace].
    rewrite !map_app, Hm. cbn [List.map]. do 2 f_equal.
    rewrite take_app_add' by done. rewrite map_app. f_equal.
    rewrite Hgtr. rewrite List.map_map.
    clear -Hgl. revert gts Hgl.
    induction (sorted l1) as [|f fs IH]; intros [|a gts]; simpl; try done.
    intros [= Hl]. f_equal; [by destruct is_3d|auto].
Qed.

(** X11: on a file system, every file [load_data] reads is an existing entry
    directly inside one of the two directories whose name ends with
    [.csv]; entries deeper down and other names are never read. *)
Theorem load_data_reads_csv_entries (L : FS.Library) (w : gmap Path FS.node)
    gt_path pred_path is_3d gt_dir pred_dir f :
  Script.Path_ gt_path = Ret gt_dir ->
  Script.Path_ pred_path = Ret pred_dir ->
  In (reader_call is_3d f)
     (calls (exec (FS.handler L) (Script.load_data gt_path pred_path is_3d) w)) ->
  exists dir name,
    (dir = gt_dir \/ dir = pred_dir) /\ f = child dir name
    /\ str.endswith name ".csv" = true /\ is_Some (w !! f) /\ FS.is_dir w dir = true.
Proof.
  intros Hg Hp.
  destruct (load_data_reads_in_order (FS.handler L) w gt_path pred_path is_3d
              gt_dir pred_dir _ w _ w Hg Hp eq_refl eq_refl) as [n ->].
  intros [H|[H|H]]; [by destruct is_3d | by destruct is_3d |].
  apply in_map_iff in H as (f' & Hf & Hin).
  assert (f' = f) by (destruct is_3d; by injection Hf). subst f'.
  apply list_elem_of_In, elem_of_take in Hin as (i & Hi & _).
  apply list_elem_of_lookup_2 in Hi.
  apply elem_of_app in Hi as [Hi|Hi]; rewrite sorted_Permutation in Hi;
    apply glob_csv_spec in Hi as (Hd & name & -> & Hin & Hm).
  - exists gt_dir, name. auto.
  - exists pred_dir, name. auto 10.
Qed.

Lemma load_data_reads_csv_entries_witness :
  exists dir name,
    (dir = ["gt"] \/ dir = ["pred"]) /\ ["gt"; "img1.csv"] = child dir name
    /\ str.endswith name ".csv" = true /\ is_Some (Example.tree !! ["gt"; "img1.csv"])
    /\ FS.is_dir Example.tree dir = true.
Proof.
  apply (load_data_reads_csv_entries Example.library Example.tree
           (PyStr "gt") (PyStr "pred") false ["gt"] ["pred"] ["gt"; "img1.csv"]
           eq_refl eq_refl).
  vm_compute. do 2 right. left. reflexivity.
Defined.

Lemma sorted_permutation_eq l l' : l ≡ₚ l' -> sorted l = sorted l'.
Proof.
  intros H. apply sorted_unique; [apply sorted_Sorted|].
  by rewrite sorted_Permutation.
Qed.

Lemma exec_tuple_of_readers_relisted {W : Type} shuffle (h : Handler W) is_3d fs w :
  exec (relisted shuffle h) (tuple_of (reader is_3d) fs) w
  = exec h (tuple_of (reader is_3d) fs) w.
Proof.
  revert w. induction fs as [|f fs IH]; intros w; simpl; [done|].
  rewrite !exec_bind.
  assert (Hr : exec (relisted shuffle h) (reader is_3d f) w = exec h (reader is_3d f) w).
  { unfold reader. by destruct is_3d. }
  rewrite Hr. destruct (result (exec h (reader is_3d f) w)); [done|].
  cbv zeta. rewrite !exec_bind, IH. done.
Qed.

(** X12: the order in which the environment lists a directory does not
    matter.  With every listing rearranged, [load_data] gives the same
    result, leaves the same world and makes the same reads with the same
    replies. *)
Theorem listing_order_is_irrelevant {W : Type} (shuffle : list Path -> list Path)
    (h : Handler W) w gt_path pred_path is_3d :
  (forall l, shuffle l ≡ₚ l) ->
  let o := exec h (Script.load_data gt_path pred_path is_3d) w in
  let o' := exec (relisted shuffle h) (Script.load_data gt_path pred_path is_3d) w in
  result o' = result o /\ world o' = world o /\ drop 2 (trace o') = drop 2 (trace o).
Proof.
  intros Hs.
  destruct (Script.Path_ gt_path) as [gd|e|c k] eqn:Hg;
    [|unfold Script.load_data; rewrite Hg; done|by destruct gt_path].
  destruct (Script.Path_ pred_path) as [pd|e|c k] eqn:Hp;
    [|unfold Script.load_data; rewrite Hg, Hp; done|by destruct pred_path].
  destruct (h (glob gd "*.csv") w) as [[e|l1] w1] eqn:H1.
  { unfold Script.load_data. rewrite Hg, Hp. simpl. rewrite H1. done. }
  destruct (h (glob pd "*.csv") w1) as [[e|l2] w2] eqn:H2.
  { unfold Script.load_data. rewrite Hg, Hp. simpl. rewrite H1. simpl. rewrite H2. done. }
  assert (H1' : relisted shuffle h (glob gd "*.csv") w = (inr (shuffle l1), w1)).
  { simpl. by rewrite H1. }
  assert (H2' : relisted shuffle h (glob pd "*.csv") w1 = (inr (shuffle l2), w2)).
  { simpl. by rewrite H2. }
  cbv zeta.
  rewrite (load_data_exec h w _ _ _ _ _ _ _ _ _ Hg Hp H1 H2).
  rewrite (load_data_exec (relisted shuffle h) w _ _ _ _ _ _ _ _ _ Hg Hp H1' H2').
  cbv zeta.
  rewrite (sorted_permutation_eq _ _ (Hs l1)), (sorted_permutation_eq _ _ (Hs l2)).
  destruct (negb (length (sorted l1) =? length (sorted l2))%nat); [done|].
  destruct (negb (files_match (sorted l1) (sorted l2))); [done|].
  rewrite !exec_tuple_of_readers_relisted.
  destruct (result (exec h (tuple_of (reader is_3d) (sorted l1)) w2)); done.
Qed.

Lemma listing_order_is_irrelevant_witness :
  let h := FS.handler Example.library in
  let o := exec h (Script.load_data (PyStr "gt") (PyStr "pred") false) Example.tree in
  let o' := exec (relisted reverse h) (Script.load_data (PyStr "gt") (PyStr "pred") false)
              Example.tree in
  result o' = result o /\ world o' = world o /\ drop 2 (trace o') = drop 2 (trace o).
Proof.
  apply (listing_order_is_irrelevant reverse (FS.handler Example.library) Example.tree
           (PyStr "gt") (PyStr "pred") false).
  intros l. apply reverse_Permutation.
Defined.

(** ** File names, stems and the pairing check *)

Lemma append_cons a s t : String a s +:+ t = String a (s +:+ t).
Proof. reflexivity. Qed.

Lemma append_nil t : "" +:+ t = t.
Proof. reflexivity. Qed.

Lemma name_child dir n : n <> "/" -> n <> "//" -> name (child dir n) = n.
Proof.
  intros H1 H2. unfold name, child.
  destruct dir as [|d dir].
  - simpl. destruct (String.eqb_spec n "/"); [done|].
    destruct (String.eqb_spec n "//"); [done|]. done.
  - change ((d :: dir) ++ [n]) with (d :: (dir ++ [n])).
    assert (Hl : (length (d :: (dir ++ [n])) =?
                  (if has_root (d :: (dir ++ [n])) then 1 else 0))%nat = false).
    { apply Nat.eqb_neq. simpl. rewrite length_app. simpl.
      destruct (_ || _); lia. }
    rewrite Hl. change (d :: (dir ++ [n])) with ((d :: dir) ++ [n]).
    apply List.last_last.
Qed.

Lemma rfind_append_csv s : str.rfind (s +:+ ".csv") "." = str.len s.
Proof.
  induction s as [|a s IH]; [reflexivity|].
  rewrite append_cons.
  cbn [str.rfind]. rewrite IH. unfold str.len. cbn [String.length].
  destruct (0 <=? Z.of_nat (String.length s)) eqn:H; [lia|]. lia.
Qed.

Lemma length_append s t : String.length (s +:+ t) = (String.length s + String.length t)%nat.
Proof.
  induction s as [|a s IH]; [done|]. rewrite append_cons. simpl. by rewrite IH.
Qed.

Lemma substring_0_append s t : String.substring 0 (String.length s) (s +:+ t) = s.
Proof.
  induction s as [|a s IH]; [by destruct t|]. rewrite append_cons. simpl. by rewrite IH.
Qed.

Lemma append_assoc s t u : (s +:+ t) +:+ u = s +:+ t +:+ u.
Proof. induction s as [|a s IH]; [done|]. rewrite !append_cons. by rewrite IH. Qed.

(** A file [s.csv] with a non-empty [s] has the stem [s]. *)
Lemma stem_csv dir s : s <> "" -> stem (child dir (s +:+ ".csv")) = s.
Proof.
  intros Hs. unfold stem.
  assert (Hn : name (child dir (s +:+ ".csv")) = s +:+ ".csv").
  { apply name_child; intros H; apply (f_equal String.length) in H;
      rewrite length_append in H; simpl in H; lia. }
  rewrite Hn, rfind_append_csv. unfold str.len. rewrite length_append.
  assert (0 < String.length s)%nat by (destruct s; [done|simpl; lia]).
  assert (H1 : (0 <? Z.of_nat (String.length s)) = true) by (apply Z.ltb_lt; lia).
  assert (H2 : (Z.of_nat (String.length s)
                <? Z.of_nat (String.length s + String.length ".csv") - 1) = true).
  { apply Z.ltb_lt. simpl String.length. lia. }
  rewrite H1, H2. simpl andb. cbv iota. unfold str.slice_to.
  rewrite Nat2Z.id. apply substring_0_append.
Qed.

Lemma startswith_nil s : str.startswith s "" = true.
Proof. by destruct s. Qed.

Lemma startswith_append p r : str.startswith (p +:+ r) p = true.
Proof.
  induction p as [|a p IH]; [apply startswith_nil|]. rewrite append_cons. simpl.
  by rewrite Ascii.eqb_refl.
Qed.

Lemma split_0_startswith s sep :
  str.startswith s sep = true -> str.split_0 s sep = "".
Proof.
  intros H. destruct s as [|c s]; [by destruct sep|].
  cbn [str.split_0]. by rewrite H.
Qed.

(** [split(sep)[0]] of a string in which [sep] occurs after [a] is a
    prefix of [a]. *)
Lemma split_0_before a sep r :
  str.startswith a (str.split_0 (a +:+ sep +:+ r) sep) = true.
Proof.
  induction a as [|c a IH].
  - rewrite append_nil, split_0_startswith; [done|apply startswith_append].
  - rewrite append_cons. cbn [str.split_0].
    destruct (str.startswith (String c (a +:+ sep +:+ r)) sep); [done|].
    simpl. by rewrite Ascii.eqb_refl.
Qed.

(** X13: the naming convention passes the check of [load_data]: for a
    non-empty [s], the ground truth [s.csv] and a prediction
    [s_predict<tail>.csv] match, whatever the tail and the directories. *)
Theorem convention_passes_check dir_gt dir_pred s tail :
  s <> "" ->
  Script.stems_match (child dir_gt (s +:+ ".csv"))
    (child dir_pred (s +:+ "_predict" +:+ tail +:+ ".csv")) = true.
Proof.
  intros Hs. unfold Script.stems_match.
  rewrite (stem_csv dir_gt s Hs).
  replace (s +:+ "_predict" +:+ tail +:+ ".csv")
    with ((s +:+ "_predict" +:+ tail) +:+ ".csv")
    by (by rewrite !append_assoc).
  rewrite stem_csv; [apply split_0_before|].
  destruct s; [done|]. done.
Qed.

Lemma convention_passes_check_witness :
  Script.stems_match (child ["gt"] ("img1" +:+ ".csv"))
    (child ["pred"] ("img1" +:+ "_predict" +:+ "_v2" +:+ ".csv")) = true.
Proof. apply (convention_passes_check ["gt"] ["pred"] "img1" "_v2"). discriminate. Defined.

(** X14: the check is void for predictions whose stem starts with
    [_predict]: the text before [_predict] is empty, and every ground-truth
    stem starts with the empty string. *)
Theorem predict_prefix_disables_check gt_files pred_files :
  Forall (fun p => str.startswith (stem p) "_predict" = true) pred_files ->
  files_match gt_files pred_files = true.
Proof.
  intros H. revert gt_files. unfold files_match.
  induction H as [|p ps Hp Hps IH]; intros [|g gs]; simpl; try done.
  rewrite IH, andb_true_r. unfold Script.stems_match.
  rewrite (split_0_startswith _ _ Hp). apply startswith_nil.
Qed.

Lemma predict_prefix_disables_check_witness :
  files_match [["gt"; "img1.csv"]; ["gt"; "img2.csv"]]
    [["pred"; "_predict_a.csv"]; ["pred"; "_predict_b.csv"]] = true.
Proof. apply predict_prefix_disables_check. repeat constructor. Defined.

(** ** Sorting against the naming convention *)

Lemma string_compare_append s a b :
  String.compare (s +:+ a) (s +:+ b) = String.compare a b.
Proof.
  induction s as [|c s IH]; [done|]. rewrite !append_cons. simpl.
  by rewrite ascii_compare_refl.
Qed.

Lemma sorted_pair l p q :
  pathlib.compare p q = Lt -> l ≡ₚ [p; q] -> sorted l = [p; q].
Proof.
  intros Hc Hp. symmetry. apply sorted_unique; [|done].
  repeat constructor. unfold le, lt.
  by rewrite (path_compare_antisym p q), Hc.
Qed.

Lemma split_0_cons c s sep :
  str.split_0 (String c s) sep
  = if str.startswith (String c s) sep then "" else String c (str.split_0 s sep).
Proof. reflexivity. Qed.

Lemma split_0_no_underscore s c :
  str.contains s "_" = false -> c <> "_"%char ->
  str.split_0 (s +:+ String c "_predict") "_predict" = s +:+ String c "".
Proof.
  intros Hs Hc. induction s as [|a s IH].
  - rewrite !append_nil, split_0_cons, startswith_cons.
    destruct (Ascii.eqb_spec "_" c) as [<-|_]; [done|]. simpl andb. cbv iota.
    by rewrite split_0_startswith.
  - simpl in Hs. apply orb_false_iff in Hs as [Ha Hs].
    rewrite !append_cons, split_0_cons, startswith_cons.
    rewrite Ascii.eqb_sym, Ha. simpl andb. cbv iota. by rewrite IH.
Qed.

Lemma startswith_longer s c : str.startswith s (s +:+ String c "") = false.
Proof.
  induction s as [|a s IH]; [done|]. rewrite append_cons. simpl.
  by rewrite Ascii.eqb_refl.
Qed.

(** X15: files are paired by their position after sorting, and the suffix
    changes the order.  For a stem [s] without underscore and a character
    [c] between ['.'] and ['_'] (a digit, an upper-case letter), the ground
    truths [s.csv], [sc.csv] sort in this order but the predictions
    [s_predict.csv], [sc_predict.csv] in the opposite one: [s.csv] is paired
    with [sc_predict.csv] and [load_data] raises the file-name
    [ValueError], although each ground truth has its prediction. *)
Theorem sort_order_breaks_pairing {W : Type} (h : Handler W) w gt_path pred_path is_3d
    gt_dir pred_dir l1 w1 l2 w2 s (c : ascii) :
  Script.Path_ gt_path = Ret gt_dir ->
  Script.Path_ pred_path = Ret pred_dir ->
  h (glob gt_dir "*.csv") w = (inr l1, w1) ->
  h (glob pred_dir "*.csv") w1 = (inr l2, w2) ->
  l1 ≡ₚ [child gt_dir (s +:+ ".csv"); child gt_dir (s +:+ String c ".csv")] ->
  l2 ≡ₚ [child pred_dir (s +:+ "_predict.csv");
         child pred_dir (s +:+ String c "_predict.csv")] ->
  s <> "" -> str.contains s "_" = false ->
  Ascii.compare "." c = Lt -> Ascii.compare c "_" = Lt ->
  exec h (Script.load_data gt_path pred_path is_3d) w
  = {| result := inl (ValueError names_message); world := w2;
       trace := [glob_event gt_dir l1; glob_event pred_dir l2] |}.
Proof.
  intros Hg Hp H1 H2 Hl1 Hl2 Hs Hu Hlo Hhi.
  assert (Hc : c <> "_"%char).
  { intros ->. by rewrite ascii_compare_refl in Hhi. }
  rewrite (load_data_exec h w _ _ _ _ _ _ _ _ _ Hg Hp H1 H2). cbv zeta.
  assert (Hgt : pathlib.compare (child gt_dir (s +:+ ".csv"))
                  (child gt_dir (s +:+ String c ".csv")) = Lt).
  { rewrite child_compare, string_compare_append. simpl. by rewrite Hlo. }
  assert (Hpr : pathlib.compare (child pred_dir (s +:+ String c "_predict.csv"))
                  (child pred_dir (s +:+ "_predict.csv")) = Lt).
  { rewrite child_compare, string_compare_append. simpl. by rewrite Hhi. }
  rewrite (sorted_pair l1 _ _ Hgt Hl1).
  assert (Hl2' : l2 ≡ₚ [child pred_dir (s +:+ String c "_predict.csv");
                        child pred_dir (s +:+ "_predict.csv")]).
  { rewrite Hl2. apply perm_swap. }
  rewrite (sorted_pair l2 _ _ Hpr Hl2').
  simpl length. simpl Nat.eqb. simpl negb. cbv iota.
  assert (Hm : Script.stems_match (child gt_dir (s +:+ ".csv"))
                 (child pred_dir (s +:+ String c "_predict.csv")) = false).
  { unfold Script.stems_match. rewrite (stem_csv gt_dir s Hs).
    replace (s +:+ String c "_predict.csv")
      with ((s +:+ String c "_predict") +:+ ".csv") by (by rewrite append_assoc).
    rewrite stem_csv by (by destruct s).
    rewrite (split_0_no_underscore s c Hu Hc). apply startswith_longer. }
  unfold files_match. cbn [List.combine List.forallb]. rewrite Hm. done.
Qed.

Lemma sort_order_breaks_pairing_witness :
  exec (FS.handler Example.library) (Script.load_data (PyStr "gt") (PyStr "pred") false)
    Trees.numbered
  = {| result := inl (ValueError names_message); world := Trees.numbered;
       trace := [glob_event ["gt"] (FS.glob_ Trees.numbered ["gt"] "*.csv");
                 glob_event ["pred"] (FS.glob_ Trees.numbered ["pred"] "*.csv")] |}.
Proof.
  apply (sort_order_breaks_pairing (FS.handler Example.library) Trees.numbered
           (PyStr "gt") (PyStr "pred") false ["gt"] ["pred"]
           _ Trees.numbered _ Trees.numbered "img1" "0" eq_refl eq_refl
           (fs_handler_glob _ _ _ _ _ eq_refl) (fs_handler_glob _ _ _ _ _ eq_refl)).
  - vm_compute. reflexivity || apply perm_swap.
  - vm_compute. reflexivity || apply perm_swap.
  - discriminate.
  - reflexivity.
  - reflexivity.
  - reflexivity.
Defined.

(** ** The same directory given twice *)

Lemma split_0_prefix s sep : str.startswith s (str.split_0 s sep) = true.
Proof.
  induction s as [|c s IH].
  - by destruct sep.
  - rewrite split_0_cons. destruct (str.startswith (String c s) sep); [done|].
    simpl. by rewrite Ascii.eqb_refl.
Qed.

Lemma files_match_refl files : files_match files files = true.
Proof.
  unfold files_match. induction files as [|f files IH]; simpl; [done|].
  rewrite IH, andb_true_r. apply split_0_prefix.
Qed.

Lemma fs_tuple_of_readers (L : FS.Library) (w : gmap Path FS.node) is_3d fs :
  (forall f, f ∈ fs -> succeeds (FS.handler L) (reader_call is_3d f) w) ->
  exists arrays,
    result (exec (FS.handler L) (tuple_of (reader is_3d) fs) w) = inr arrays
    /\ world (exec (FS.handler L) (tuple_of (reader is_3d) fs) w) = w
    /\ length arrays = length fs.
Proof.
  induction fs as [|f fs IH]; intros Hs; simpl; [by exists []|].
  rewrite exec_bind.
  destruct (reader_succeeds (FS.handler L) is_3d f w) as [a Ha].
  { apply Hs. by left. }
  assert (Hw : world (exec (FS.handler L) (reader is_3d f) w) = w).
  { unfold reader. destruct is_3d; simpl; by destruct (_ ≫= _). }
  rewrite Ha. cbv zeta. rewrite exec_bind, Hw.
  destruct IH as (ys & Hys & Hwy & Hlen).
  { intros f' Hf'. apply Hs. by right. }
  rewrite Hys. simpl. exists (a :: ys). rewrite Hwy. simpl. by rewrite Hlen.
Qed.

(** X16: the same directory given as ground truth and as predictions is
    accepted.  Each file is then paired with itself, the counts agree and a
    stem starts with its own text before [_predict]; so on a file system
    where the files of the directory can be read, [load_data] returns every
    array paired with itself. *)
Theorem same_directory_is_accepted (L : FS.Library) (w : gmap Path FS.node)
    path is_3d dir :
  Script.Path_ path = Ret dir ->
  (forall f, f ∈ FS.glob_ w dir "*.csv" ->
             succeeds (FS.handler L) (reader_call is_3d f) w) ->
  exists arrays,
    result (exec (FS.handler L) (Script.load_data path path is_3d) w)
    = inr (arrays, arrays)
    /\ length arrays = length (FS.glob_ w dir "*.csv").
Proof.
  intros Hp Hs.
  rewrite (load_data_exec (FS.handler L) w _ _ is_3d dir dir _ w _ w Hp Hp
             eq_refl eq_refl).
  cbv zeta. rewrite Nat.eqb_refl, files_match_refl. simpl negb. cbv iota.
  destruct (fs_tuple_of_readers L w is_3d (sorted (FS.glob_ w dir "*.csv")))
    as (arrays & Hr & Hw & Hlen).
  { intros f Hf. apply Hs. by rewrite sorted_Permutation in Hf. }
  rewrite Hr. cbv beta iota zeta. rewrite Hw, Hr.
  exists arrays. split; [reflexivity|]. by rewrite Hlen, sorted_length.
Qed.

Lemma same_directory_is_accepted_witness :
  exists arrays,
    result (exec (FS.handler Example.library)
              (Script.load_data (PyStr "gt") (PyStr "gt") false) Example.tree)
    = inr (arrays, arrays)
    /\ length arrays = length (FS.glob_ Example.tree ["gt"] "*.csv").
Proof.
  apply (same_directory_is_accepted Example.library Example.tree (PyStr "gt") false ["gt"]
           eq_refl).
  apply Forall_forall.
  let l := eval vm_compute in (FS.glob_ Example.tree ["gt"] "*.csv") in
  assert (Hl : FS.glob_ Example.tree ["gt"] "*.csv" = l) by (vm_compute; reflexivity);
  rewrite Hl.
  apply Forall_cons_2; [vm_compute; exact I|].
  apply Forall_cons_2; [vm_compute; exact I|].
  apply Forall_nil_2.
Defined.
